(** * acorn-typescript: the TypeScript plugin of the acorn parser

    A shallow embedding of the parts of [src/index.ts] that carry the
    speculative-parsing machinery (look-ahead snapshots, [tryParse]), the
    context-sensitive tokenizer overrides, the diagnostics routing, node
    finishing, and the validation passes of the declaration and type
    grammar (modifier lists, tuple types, ambient variable statements,
    scope bindings).

    Conventions.
    - JavaScript numbers that the parser uses as offsets, lines, columns and
      character codes are [Z].
    - The source text is a list of UTF-16 code units ([list Z]), so that
      [charCodeAt] and [slice] read as in the source; node types, modifier
      names and identifiers are [string].
    - JavaScript arrays that are mutated in place and shared by reference
      (the tokenizer's [context] stack) live in a store of arrays; a field
      holding such an array holds its address.
    - Methods of the base parser (acorn) and of the plugin's other files
      that the embedded methods call are parameters, grouped in classes
      ([BaseTokenizer], [BaseParser], [BaseExpressions], [BaseScopes],
      [TokenClasses], [CommentHook], [BaseLexer], [BaseExports]); every
      statement holds for all of them. *)

From Stdlib Require Import ZArith String List Bool Lia.
From stdpp Require Import base gmap strings list.

Local Open Scope Z_scope.
#[local] Set Warnings "-register-all".

(** ** Vocabulary shared by the tokenizer and the parser *)

(** A source position. [index] is the offset that the plugin's
    [curPosition] override adds to acorn's line/column pair. *)
Record Position := mkPosition { line : Z; column : Z; index : Z }.

#[global] Instance Position_eq_dec : EqDecision Position.
Proof. solve_decision. Defined.

(** Token types: the members of acorn's [tt] and of the plugin's
    [tokTypes] that [index.ts] names. *)
Inductive TokenType :=
| tt_num | tt_string | tt_name | tt_privateId | tt_eof
| tt_bracketL | tt_bracketR | tt_braceL | tt_braceR | tt_parenL | tt_parenR
| tt_comma | tt_semi | tt_colon | tt_dot | tt_questionDot | tt_arrow
| tt_ellipsis | tt_backQuote | tt_eq | tt_prefix | tt_relational
| tt_bitShift | tt_star | tt_slash
| tt_keyword (kw : string)        (* tt._in, tt._class, tt._new, ... *)
| tokTypes_at | tokTypes_jsxTagStart | tokTypes_jsxTagEnd
| tokTypes_jsxText | tokTypes_jsxName
| tokTypes_ts (kw : string).      (* abstract, declare, readonly, ... *)

#[global] Instance TokenType_eq_dec : EqDecision TokenType.
Proof. solve_decision. Defined.

(** Tokenizer contexts: acorn's [tokContexts] and the plugin's tag
    contexts. *)
Inductive TokContext :=
| b_stat | b_expr | b_tmpl | p_stat | p_expr | q_tmpl | f_stat | f_expr
| f_expr_gen | f_gen
| tc_oTag | tc_cTag | tc_expr.

#[global] Instance TokContext_eq_dec : EqDecision TokContext.
Proof. solve_decision. Defined.

(** A JavaScript string as its UTF-16 code units. *)
Definition jsstring := list Z.

Definition str (s : string) : jsstring :=
  map (fun a => Z.of_nat (Ascii.nat_of_ascii a)) (list_ascii_of_string s).

(** The value of a token ([this.value]). *)
Inductive Value :=
| VUndefined
| VNull
| VStr (s : jsstring)
| VNum (z : Z).

#[global] Instance Value_eq_dec : EqDecision Value.
Proof. solve_decision. Defined.

(** [this.curPosition] is a method; snapshots store the method itself. *)
Inductive Method := curPosition_method.

(** Address of a JavaScript array in the store. *)
Definition ref := nat.

(** The parser options the embedded methods consult. The plugin is run
    with [locations] on: positions are read without a null check. *)
Record Options := mkOptions { ecmaVersion : Z; locations : bool; ranges : bool }.

(** ** The parser object

    The mutable fields of [TypeScriptParser] (own and inherited) that the
    embedded methods read or write. *)
Record Parser := mkParser {
  input : jsstring;
  options : Options;
  (* the fields a look-ahead snapshot names *)
  pos : Z;
  value : Value;
  type : TokenType;
  start : Z;
  end_ : Z;
  context : ref;
  startLoc : Position;
  lastTokEndLoc : Position;
  endLoc : Position;
  lastTokEnd : Z;
  lastTokStart : Z;
  lastTokStartLoc : Position;
  curLine : Z;
  lineStart : Z;
  curPositionFn : Method;
  containsEsc : bool;
  (* tokenizer and plugin state outside the snapshot *)
  exprAllowed : bool;
  preValue : Value;
  preToken : option TokenType;
  isLookahead : bool;
  isAmbientContext : bool;
  inType : bool;
  (* the store of arrays, and the counter that gives each abort signal
     object of [tryParse] its identity *)
  heap : gmap ref (list TokContext);
  signals : nat
}.

(** The array [this.context] points to. *)
Definition contextArray (p : Parser) : list TokContext :=
  default [] (heap p !! context p).

(** acorn: [curContext() { return this.context[this.context.length - 1] }] *)
Definition curContext (p : Parser) : option TokContext :=
  last (contextArray p).

(** A parser is well formed when [this.context] is an allocated array. *)
Definition wf (p : Parser) : Prop := context p ∈ dom (heap p).

#[global] Instance wf_dec p : Decision (wf p).
Proof. unfold wf. apply _. Defined.

(** Single-field assignments ([this.f = v]). *)
Definition set_pos (v : Z) (p : Parser) : Parser :=
  {| input := input p; options := options p; pos := v; value := value p; type := type p;
     start := start p; end_ := end_ p; context := context p;
     startLoc := startLoc p; lastTokEndLoc := lastTokEndLoc p;
     endLoc := endLoc p; lastTokEnd := lastTokEnd p;
     lastTokStart := lastTokStart p; lastTokStartLoc := lastTokStartLoc p;
     curLine := curLine p; lineStart := lineStart p;
     curPositionFn := curPositionFn p; containsEsc := containsEsc p;
     exprAllowed := exprAllowed p; preValue := preValue p;
     preToken := preToken p; isLookahead := isLookahead p;
     isAmbientContext := isAmbientContext p; inType := inType p;
     heap := heap p; signals := signals p |}.

Definition set_exprAllowed (v : bool) (p : Parser) : Parser :=
  {| input := input p; options := options p; pos := pos p; value := value p; type := type p;
     start := start p; end_ := end_ p; context := context p;
     startLoc := startLoc p; lastTokEndLoc := lastTokEndLoc p;
     endLoc := endLoc p; lastTokEnd := lastTokEnd p;
     lastTokStart := lastTokStart p; lastTokStartLoc := lastTokStartLoc p;
     curLine := curLine p; lineStart := lineStart p;
     curPositionFn := curPositionFn p; containsEsc := containsEsc p;
     exprAllowed := v; preValue := preValue p; preToken := preToken p;
     isLookahead := isLookahead p; isAmbientContext := isAmbientContext p;
     inType := inType p; heap := heap p; signals := signals p |}.

Definition set_heap (v : gmap ref (list TokContext)) (p : Parser) : Parser :=
  {| input := input p; options := options p; pos := pos p; value := value p; type := type p;
     start := start p; end_ := end_ p; context := context p;
     startLoc := startLoc p; lastTokEndLoc := lastTokEndLoc p;
     endLoc := endLoc p; lastTokEnd := lastTokEnd p;
     lastTokStart := lastTokStart p; lastTokStartLoc := lastTokStartLoc p;
     curLine := curLine p; lineStart := lineStart p;
     curPositionFn := curPositionFn p; containsEsc := containsEsc p;
     exprAllowed := exprAllowed p; preValue := preValue p;
     preToken := preToken p; isLookahead := isLookahead p;
     isAmbientContext := isAmbientContext p; inType := inType p; heap := v;
     signals := signals p |}.

Definition set_signals (v : nat) (p : Parser) : Parser :=
  {| input := input p; options := options p; pos := pos p; value := value p; type := type p;
     start := start p; end_ := end_ p; context := context p;
     startLoc := startLoc p; lastTokEndLoc := lastTokEndLoc p;
     endLoc := endLoc p; lastTokEnd := lastTokEnd p;
     lastTokStart := lastTokStart p; lastTokStartLoc := lastTokStartLoc p;
     curLine := curLine p; lineStart := lineStart p;
     curPositionFn := curPositionFn p; containsEsc := containsEsc p;
     exprAllowed := exprAllowed p; preValue := preValue p;
     preToken := preToken p; isLookahead := isLookahead p;
     isAmbientContext := isAmbientContext p; inType := inType p;
     heap := heap p; signals := v |}.

Definition set_isAmbientContext (v : bool) (p : Parser) : Parser :=
  {| input := input p; options := options p; pos := pos p; value := value p;
     type := type p; start := start p; end_ := end_ p; context := context p;
     startLoc := startLoc p; lastTokEndLoc := lastTokEndLoc p;
     endLoc := endLoc p; lastTokEnd := lastTokEnd p;
     lastTokStart := lastTokStart p; lastTokStartLoc := lastTokStartLoc p;
     curLine := curLine p; lineStart := lineStart p;
     curPositionFn := curPositionFn p; containsEsc := containsEsc p;
     exprAllowed := exprAllowed p; preValue := preValue p;
     preToken := preToken p; isLookahead := isLookahead p;
     isAmbientContext := v; inType := inType p; heap := heap p;
     signals := signals p |}.

Definition set_inType (v : bool) (p : Parser) : Parser :=
  {| input := input p; options := options p; pos := pos p; value := value p;
     type := type p; start := start p; end_ := end_ p; context := context p;
     startLoc := startLoc p; lastTokEndLoc := lastTokEndLoc p;
     endLoc := endLoc p; lastTokEnd := lastTokEnd p;
     lastTokStart := lastTokStart p; lastTokStartLoc := lastTokStartLoc p;
     curLine := curLine p; lineStart := lineStart p;
     curPositionFn := curPositionFn p; containsEsc := containsEsc p;
     exprAllowed := exprAllowed p; preValue := preValue p;
     preToken := preToken p; isLookahead := isLookahead p;
     isAmbientContext := isAmbientContext p; inType := v; heap := heap p;
     signals := signals p |}.

(** ** Diagnostics

    Messages are either literal strings (acorn's own, or built in place) or
    one of the templates of [./error] ([TypeScriptError.*]); the templates
    are kept symbolic, with their arguments. *)
Inductive TypeScriptError :=
| OptionalTypeBeforeRequired
| MixedLabeledAndUnlabeledElements
| InvalidModifiersOrder (before after : string)
| IncompatibleModifiers (mod1 mod2 : string)
| DuplicateModifier (modifier : string)
| DuplicateAccessibilityModifier
| InvalidModifierOnTypeMember
| InvalidModifierOnTypeParameterPositions
| InitializerNotAllowedInAmbientContext
| ConstInitiailizerMustBeStringOrNumericLiteralOrLiteralEnumReference.

Inductive Message :=
| Text (s : string)
| Template (e : TypeScriptError).

#[global] Instance TypeScriptError_eq_dec : EqDecision TypeScriptError.
Proof. solve_decision. Defined.

#[global] Instance Message_eq_dec : EqDecision Message.
Proof. solve_decision. Defined.

(** ** Parser State & Snapshot Model *)

Module LookaheadState.
(** The object literal built by [getCurLookaheadState] and
    [cloneCurLookaheadState]. [context] is the address of an array. *)
Record t := mk {
  pos : Z;
  value : Value;
  type : TokenType;
  start : Z;
  end_ : Z;
  context : ref;
  startLoc : Position;
  lastTokEndLoc : Position;
  endLoc : Position;
  lastTokEnd : Z;
  lastTokStart : Z;
  lastTokStartLoc : Position;
  curLine : Z;
  lineStart : Z;
  curPosition : Method;
  containsEsc : bool
}.

(** The same snapshot with another array address in [context]. *)
Definition with_context (l : ref) (s : t) : t :=
  {| pos := pos s; value := value s; type := type s; start := start s;
     end_ := end_ s; context := l; startLoc := startLoc s;
     lastTokEndLoc := lastTokEndLoc s; endLoc := endLoc s;
     lastTokEnd := lastTokEnd s; lastTokStart := lastTokStart s;
     lastTokStartLoc := lastTokStartLoc s; curLine := curLine s;
     lineStart := lineStart s; curPosition := curPosition s;
     containsEsc := containsEsc s |}.
End LookaheadState.

(** [getCurLookaheadState]: every field is read off the parser; [context]
    is the parser's own array (no copy). *)
Definition getCurLookaheadState (p : Parser) : LookaheadState.t :=
  {| LookaheadState.endLoc := endLoc p;
     LookaheadState.lastTokEnd := lastTokEnd p;
     LookaheadState.lastTokStart := lastTokStart p;
     LookaheadState.lastTokStartLoc := lastTokStartLoc p;
     LookaheadState.pos := pos p;
     LookaheadState.value := value p;
     LookaheadState.type := type p;
     LookaheadState.start := start p;
     LookaheadState.end_ := end_ p;
     LookaheadState.context := context p;
     LookaheadState.startLoc := startLoc p;
     LookaheadState.lastTokEndLoc := lastTokEndLoc p;
     LookaheadState.curLine := curLine p;
     LookaheadState.lineStart := lineStart p;
     LookaheadState.curPosition := curPositionFn p;
     LookaheadState.containsEsc := containsEsc p |}.

(** [cloneCurLookaheadState]: as above, but [context] is
    [this.context.slice()], a newly allocated copy of the array. *)
Definition cloneCurLookaheadState (p : Parser) : LookaheadState.t * Parser :=
  let l := fresh (dom (heap p)) in
  ({| LookaheadState.pos := pos p;
      LookaheadState.value := value p;
      LookaheadState.type := type p;
      LookaheadState.start := start p;
      LookaheadState.end_ := end_ p;
      LookaheadState.context := l;
      LookaheadState.startLoc := startLoc p;
      LookaheadState.lastTokEndLoc := lastTokEndLoc p;
      LookaheadState.endLoc := endLoc p;
      LookaheadState.lastTokEnd := lastTokEnd p;
      LookaheadState.lastTokStart := lastTokStart p;
      LookaheadState.lastTokStartLoc := lastTokStartLoc p;
      LookaheadState.curLine := curLine p;
      LookaheadState.lineStart := lineStart p;
      LookaheadState.curPosition := curPositionFn p;
      LookaheadState.containsEsc := containsEsc p |},
   set_heap (<[l := contextArray p]> (heap p)) p).

(** [setLookaheadState]: sixteen assignments; [this.context] becomes the
    array the snapshot holds. *)
Definition setLookaheadState (state : LookaheadState.t) (p : Parser) : Parser :=
  {| input := input p; options := options p;
     pos := LookaheadState.pos state;
     value := LookaheadState.value state;
     endLoc := LookaheadState.endLoc state;
     lastTokEnd := LookaheadState.lastTokEnd state;
     lastTokStart := LookaheadState.lastTokStart state;
     lastTokStartLoc := LookaheadState.lastTokStartLoc state;
     type := LookaheadState.type state;
     start := LookaheadState.start state;
     end_ := LookaheadState.end_ state;
     context := LookaheadState.context state;
     startLoc := LookaheadState.startLoc state;
     lastTokEndLoc := LookaheadState.lastTokEndLoc state;
     curLine := LookaheadState.curLine state;
     lineStart := LookaheadState.lineStart state;
     curPositionFn := LookaheadState.curPosition state;
     containsEsc := LookaheadState.containsEsc state;
     exprAllowed := exprAllowed p; preValue := preValue p;
     preToken := preToken p; isLookahead := isLookahead p;
     isAmbientContext := isAmbientContext p; inType := inType p;
     heap := heap p; signals := signals p |}.

(** [tsLookAhead(f)]: [f] runs on the live parser between a by-reference
    snapshot and its restore. *)
Definition tsLookAhead {T : Type} (f : Parser -> T * Parser) (p : Parser)
  : T * Parser :=
  let state := getCurLookaheadState p in
  let '(res, p1) := f p in
  (res, setLookaheadState state p1).

(** [tsTryParse(f)]: as above, but the snapshot is restored only when [f]
    returns [undefined] or [false] ([None]). *)
Definition tsTryParse {T : Type} (f : Parser -> option T * Parser) (p : Parser)
  : option T * Parser :=
  let state := getCurLookaheadState p in
  match f p with
  | (Some result, p1) => (Some result, p1)
  | (None, p1) => (None, setLookaheadState state p1)
  end.

(** What a caller can observe of the cursor: the token, the offsets, the
    line and column bookkeeping (the snapshot fields, array address
    erased), and the content of the lexical-context stack. *)
Definition observe (p : Parser) : LookaheadState.t * list TokContext :=
  (LookaheadState.with_context 0%nat (getCurLookaheadState p), contextArray p).

(** ** JavaScript string primitives on code-unit lists *)

(** [s.charCodeAt(i)]; [None] is [NaN] (index out of range). *)
Definition charCodeAt (s : jsstring) (i : Z) : option Z :=
  if i <? 0 then None else s !! Z.to_nat i.

(** [s.slice(a, b)], with JavaScript's treatment of negative and
    out-of-range indices. *)
Definition slice (s : jsstring) (a b : Z) : jsstring :=
  let len := Z.of_nat (length s) in
  let from := if a <? 0 then Z.max (len + a) 0 else Z.min a len in
  let to := if b <? 0 then Z.max (len + b) 0 else Z.min b len in
  take (Z.to_nat (to - from)) (drop (Z.to_nat from) s).

(** ** Context-Sensitive Tokenizer *)

(** [curPosition()]: acorn's [Position(curLine, pos - lineStart)] with the
    [index] the override adds (the plugin runs with [locations] on). *)
Definition curPosition (p : Parser) : Position :=
  mkPosition (curLine p) (pos p - lineStart p) (pos p).

(** [this.context.push(c)]: the array is extended in place. *)
Definition context_push (c : TokContext) (p : Parser) : Parser :=
  set_heap (<[context p := contextArray p ++ [c]]> (heap p)) p.

(** [this.context.length -= n]: truncation in place; a negative length is
    a [RangeError] ([None]). *)
Definition context_shrink (n : nat) (p : Parser) : option Parser :=
  let a := contextArray p in
  if (length a <? n)%nat then None
  else Some (set_heap (<[context p := take (length a - n) a]> (heap p)) p).

(** acorn's [isIdentifierStart]; the table lookups for code units from
    0xaa on are a parameter. *)
Definition isIdentifierStart (nonASCIIidentifierStart : Z -> bool) (code : Z) : bool :=
  if code <? 65 then code =? 36
  else if code <? 91 then true
  else if code <? 97 then code =? 95
  else if code <? 123 then true
  else (170 <=? code) && nonASCIIidentifierStart code.

(** Methods of the base tokenizer (acorn) and of the JSX extension that the
    overrides call. [None] stands for a thrown exception. *)
Class BaseTokenizer := {
  super_updateContext : TokenType -> Parser -> option Parser;
  super_getTokenFromCode : Z -> Parser -> option Parser;
  readWord : Parser -> option Parser;
  jsx_readToken : Parser -> option Parser;
  jsx_readWord : Parser -> option Parser;
  jsx_readString : Z -> Parser -> option Parser;
  nonASCIIidentifierStart : Z -> bool
}.

Section Tokenizer.
Context `{BaseTokenizer}.

(** [updateContext(prevType)] *)
Definition updateContext (prevType : TokenType) (p : Parser) : option Parser :=
  if decide (type p = tt_braceL) then
    let curContext := curContext p in
    p1 ← (if decide (curContext = Some tc_oTag) then Some (context_push b_expr p)
          else if decide (curContext = Some tc_expr) then Some (context_push b_tmpl p)
          else super_updateContext prevType p);
    Some (set_exprAllowed true p1)
  else if decide (type p = tt_slash ∧ prevType = tokTypes_jsxTagStart) then
    p1 ← context_shrink 2 p;
    Some (set_exprAllowed false (context_push tc_cTag p1))
  else super_updateContext prevType p.

(** [finishToken(type, val)] *)
Definition finishToken (type' : TokenType) (val : Value) (p : Parser) : option Parser :=
  let prevType := type p in
  let p1 :=
    {| input := input p; options := options p; pos := pos p;
       value := val; type := type';
       start := start p; end_ := pos p; context := context p;
       startLoc := startLoc p; lastTokEndLoc := lastTokEndLoc p;
       endLoc := if locations (options p) then curPosition p else endLoc p;
       lastTokEnd := lastTokEnd p; lastTokStart := lastTokStart p;
       lastTokStartLoc := lastTokStartLoc p; curLine := curLine p;
       lineStart := lineStart p; curPositionFn := curPositionFn p;
       containsEsc := containsEsc p; exprAllowed := exprAllowed p;
       preValue := value p; preToken := Some (type p);
       isLookahead := isLookahead p;
       isAmbientContext := isAmbientContext p; inType := inType p;
       heap := heap p; signals := signals p |} in
  if negb (isLookahead p) then updateContext prevType p1 else Some p1.

(** acorn's [finishOp(type, size)]: the operator's text is sliced from
    the input, the offset moves past it, the token is finished. *)
Definition finishOp (type' : TokenType) (size : Z) (p : Parser) : option Parser :=
  let str := slice (input p) (pos p) (pos p + size) in
  finishToken type' (VStr str) (set_pos (pos p + size) p).

(** [getTokenFromCodeInType(code)] *)
Definition getTokenFromCodeInType (code : Z) (p : Parser) : option Parser :=
  if code =? 62 then finishOp tt_relational 1 p
  else if code =? 60 then finishOp tt_relational 1 p
  else super_getTokenFromCode code p.

(** [getTokenFromCode(code)] *)
Definition getTokenFromCode (code : Z) (p : Parser) : option Parser :=
  if inType p then getTokenFromCodeInType code p
  else if code =? 64 then finishToken tokTypes_at VUndefined (set_pos (pos p + 1) p)
  else super_getTokenFromCode code p.

(** acorn's [readToken(code)], which dispatches on the overridden
    [readWord] and [getTokenFromCode]. *)
Definition super_readToken (code : Z) (p : Parser) : option Parser :=
  if isIdentifierStart nonASCIIidentifierStart code || (code =? 92)
  then readWord p
  else getTokenFromCode code p.

(** [readToken(code)] *)
Definition readToken (code : Z) (p : Parser) : option Parser :=
  let tagStart :=
    if (code =? 60) && exprAllowed p
       && negb (bool_decide (charCodeAt (input p) (pos p + 1) = Some 33))
    then finishToken tokTypes_jsxTagStart VUndefined (set_pos (pos p + 1) p)
    else super_readToken code p in
  if negb (inType p) then
    let context := curContext p in
    if decide (context = Some tc_expr) then jsx_readToken p
    else if decide (context = Some tc_oTag ∨ context = Some tc_cTag) then
      if isIdentifierStart nonASCIIidentifierStart code then jsx_readWord p
      else if code =? 62 then
        finishToken tokTypes_jsxTagEnd VUndefined (set_pos (pos p + 1) p)
      else if ((code =? 34) || (code =? 39))
              && bool_decide (context = Some tc_oTag)
      then jsx_readString code p
      else tagStart
    else tagStart
  else super_readToken code p.

(** The token state [finishOp(tt.relational, 1)] leaves before the
    context update. *)
Definition relationalToken (p : Parser) : Parser :=
  {| input := input p; options := options p; pos := pos p + 1;
     value := VStr (slice (input p) (pos p) (pos p + 1));
     type := tt_relational;
     start := start p; end_ := pos p + 1; context := context p;
     startLoc := startLoc p; lastTokEndLoc := lastTokEndLoc p;
     endLoc := if locations (options p)
               then mkPosition (curLine p) (pos p + 1 - lineStart p) (pos p + 1)
               else endLoc p;
     lastTokEnd := lastTokEnd p; lastTokStart := lastTokStart p;
     lastTokStartLoc := lastTokStartLoc p; curLine := curLine p;
     lineStart := lineStart p; curPositionFn := curPositionFn p;
     containsEsc := containsEsc p; exprAllowed := exprAllowed p;
     preValue := value p; preToken := Some (type p);
     isLookahead := isLookahead p;
     isAmbientContext := isAmbientContext p; inType := inType p;
     heap := heap p; signals := signals p |}.
End Tokenizer.

(** ** Looking past white space

    [skipWhiteSpace] is the sticky regular expression
    [/(?:\s|\/\/.*|\/\*[^]*?\*\/)*/g]: any run of white-space characters,
    line comments and terminated block comments. It is run here as the
    automaton of that expression; [committed] is the end of the last
    complete iteration of the star, which is where the match ends when the
    next iteration cannot complete. *)

(** The class [\s]. *)
Definition isWhiteSpaceChar (c : Z) : bool :=
  ((9 <=? c) && (c <=? 13)) || (c =? 32) || (c =? 160) || (c =? 5760)
  || ((8192 <=? c) && (c <=? 8202)) || (c =? 8232) || (c =? 8233)
  || (c =? 8239) || (c =? 8287) || (c =? 12288) || (c =? 65279).

(** The characters [.] does not match. *)
Definition isLineTerminator (c : Z) : bool :=
  (c =? 10) || (c =? 13) || (c =? 8232) || (c =? 8233).

Inductive SkipMode :=
| Between        (* at the start of an iteration of the star *)
| LineSlash      (* on the second slash of a line comment *)
| InLine         (* inside [.*] *)
| BlockStar      (* on the star that opens a block comment *)
| InBlock        (* inside [[^]*?] *)
| InBlockStar.   (* inside a block comment, just after a star *)

Fixpoint skipWhiteSpace_from (mode : SkipMode) (s : jsstring) (i committed : Z) : Z :=
  match s with
  | [] => committed
  | c :: t =>
    match mode with
    | Between =>
      if isWhiteSpaceChar c then skipWhiteSpace_from Between t (i + 1) (i + 1)
      else if c =? 47 then
        match t with
        | d :: _ =>
          if d =? 47 then skipWhiteSpace_from LineSlash t (i + 1) committed
          else if d =? 42 then skipWhiteSpace_from BlockStar t (i + 1) committed
          else committed
        | [] => committed
        end
      else committed
    | InLine =>
      (* a line terminator ends [.*]; it is itself white space and is
         taken by the next iteration *)
      if isLineTerminator c then skipWhiteSpace_from Between t (i + 1) (i + 1)
      else skipWhiteSpace_from InLine t (i + 1) (i + 1)
    | LineSlash => skipWhiteSpace_from InLine t (i + 1) (i + 1)
    | BlockStar => skipWhiteSpace_from InBlock t (i + 1) committed
    | InBlock =>
      if c =? 42 then skipWhiteSpace_from InBlockStar t (i + 1) committed
      else skipWhiteSpace_from InBlock t (i + 1) committed
    | InBlockStar =>
      if c =? 47 then skipWhiteSpace_from Between t (i + 1) (i + 1)
      else if c =? 42 then skipWhiteSpace_from InBlockStar t (i + 1) committed
      else skipWhiteSpace_from InBlock t (i + 1) committed
    end
  end.

(** [nextTokenStartSince(pos)]: [lastIndex] after the match, or [pos]
    itself when [pos] lies beyond the input. *)
Definition nextTokenStartSince (pos' : Z) (p : Parser) : Z :=
  skipWhiteSpace_from Between (drop (Z.to_nat pos') (input p)) pos' pos'.

(** [nextTokenStart()] *)
Definition nextTokenStart (p : Parser) : Z := nextTokenStartSince (pos p) p.

(** [lookaheadCharCode()] *)
Definition lookaheadCharCode (p : Parser) : option Z :=
  charCodeAt (input p) (nextTokenStart p).

(** [match(type)] *)
Definition match_ (t : TokenType) (p : Parser) : bool :=
  bool_decide (type p = t).

(** The third condition of the comma rule as the specification words it,
    the next non-whitespace character: the first code unit at or after the
    offset that is not of the class [\s].  Comments are not white space in
    this reading. *)
Fixpoint firstNonWhiteSpace (s : jsstring) : option Z :=
  match s with
  | [] => None
  | c :: t => if isWhiteSpaceChar c then firstNonWhiteSpace t else Some c
  end.

Definition nextNonWhitespaceCharCode (p : Parser) : option Z :=
  firstNonWhiteSpace (drop (Z.to_nat (pos p)) (input p)).

(** ** Diagnostics routing *)

(** A [SyntaxError] as acorn's [raise] builds it. *)
Record SyntaxError := mkSyntaxError { err_pos : Z; err_message : Message }.

#[global] Instance SyntaxError_eq_dec : EqDecision SyntaxError.
Proof. solve_decision. Defined.

(** How a method completes on a state of type [S]: normally with a result,
    by throwing a [SyntaxError], or by a JavaScript fault of another kind
    (a [TypeError] on reading a property of [undefined], say). *)
Inductive Completion (A S : Type) :=
| Normal (a : A) (s : S)
| Throw (e : SyntaxError) (s : S)
| Fault (what : string) (s : S).

Arguments Normal {A S} a s.
Arguments Throw {A S} e s.
Arguments Fault {A S} what s.

(** Sequencing: the rest of the method runs only after a normal
    completion. *)
Definition andThen {A B S : Type} (c : Completion A S) (k : A -> S -> Completion B S)
  : Completion B S :=
  match c with
  | Normal a s => k a s
  | Throw e s => Throw e s
  | Fault w s => Fault w s
  end.

(** Methods of the base parser (acorn) the overrides below call. *)
Class BaseParser := {
  next : Parser -> Completion unit Parser;
  super_raise : Z -> Message -> Parser -> Completion unit Parser;
  super_raiseRecoverable : Z -> Message -> Parser -> Completion unit Parser
}.

Definition CommaAfterRest : Message :=
  Text "Comma is not permitted after the rest element".

Section Raise.
Context `{BaseParser}.

(** [raiseCommonCheck(pos, message, recoverable)] *)
Definition raiseCommonCheck (pos' : Z) (message : Message) (recoverable : bool)
    (p : Parser) : Completion unit Parser :=
  if decide (message = CommaAfterRest) then
    if isAmbientContext p && match_ tt_comma p
       && bool_decide (lookaheadCharCode p = Some 41)
    then next p
    else super_raise pos' message p
  else
    if recoverable then super_raiseRecoverable pos' message p
    else super_raise pos' message p.

(** [raiseRecoverable(pos, message)] *)
Definition raiseRecoverable (pos' : Z) (message : Message) (p : Parser)
  : Completion unit Parser :=
  raiseCommonCheck pos' message true p.

(** [raise(pos, message)] *)
Definition raise (pos' : Z) (message : Message) (p : Parser)
  : Completion unit Parser :=
  raiseCommonCheck pos' message true p.
End Raise.

(** ** Speculative Disambiguation Engine *)

Section TryParse.
(** The node type [T] of the speculative production. *)
Context {T : Type}.

(** What a callback can throw: a parse error, the abort signal object of
    some [tryParse] call (told apart by identity) carrying the node the
    [abort] callback stored in it, or anything else. *)
Inductive Thrown :=
| ThrownSyntaxError (e : SyntaxError)
| ThrownAbortSignal (id : nat) (node : option T)
| ThrownOther (what : string).

(** How the callback [fn] completes. *)
Inductive FnCompletion :=
| Returns (node : T)
| Throws (error : Thrown).

(** The [TryParse] result object. *)
Record TryParse := mkTryParse {
  node : option T;
  error : option SyntaxError;
  thrown : bool;
  aborted : bool;
  failState : option LookaheadState.t
}.

(** [tryParse(fn, oldState = this.cloneCurLookaheadState())].

    [abortSignal] is a new object; the [abort] callback handed to [fn]
    stores its argument ([null] by default) in it and throws it. The catch
    block takes the fail state, restores [oldState], and only then looks at
    what was thrown. The result is either the [TryParse] object or the
    rethrown value. *)
Definition tryParse
    (fn : (option T -> Thrown) -> Parser -> FnCompletion * Parser)
    (oldState : option LookaheadState.t) (p : Parser)
  : (TryParse + Thrown) * Parser :=
  let '(oldState, p0) :=
    match oldState with
    | Some s => (s, p)
    | None => cloneCurLookaheadState p
    end in
  let abortSignal := signals p0 in
  let p1 := set_signals (S abortSignal) p0 in
  match fn (fun node => ThrownAbortSignal abortSignal node) p1 with
  | (Returns node, p2) =>
    (inl {| node := Some node; error := None; thrown := false;
            aborted := false; failState := None |}, p2)
  | (Throws error, p2) =>
    let failState := getCurLookaheadState p2 in
    let p3 := setLookaheadState oldState p2 in
    match error with
    | ThrownSyntaxError e =>
      (inl {| node := None; error := Some e; thrown := true;
              aborted := false; failState := Some failState |}, p3)
    | ThrownAbortSignal id node =>
      if decide (id = abortSignal) then
        (inl {| node := node; error := None; thrown := false;
                aborted := true; failState := Some failState |}, p3)
      else (inr error, p3)
    | ThrownOther _ => (inr error, p3)
    end
  end.
End TryParse.

Arguments Thrown : clear implicits.
Arguments FnCompletion : clear implicits.
Arguments TryParse : clear implicits.

(** Advancing [n] tokens with the tokenizer step [nextToken]. *)
Definition advance (nextToken : Parser -> Parser) (n : nat) (p : Parser) : Parser :=
  Nat.iter n nextToken p.

(** ** Concrete parsers used in examples *)

(** The parser as acorn's constructor leaves it on [input]: offset 0, line
    1, an end-of-file token, the context stack [[b_stat]]. *)
Definition initialParser (input' : jsstring) : Parser :=
  {| input := input'; options := mkOptions 2022 true false;
     pos := 0; value := VNull; type := tt_eof; start := 0; end_ := 0;
     context := 0%nat;
     startLoc := mkPosition 1 0 0; lastTokEndLoc := mkPosition 1 0 0;
     endLoc := mkPosition 1 0 0;
     lastTokEnd := 0; lastTokStart := 0; lastTokStartLoc := mkPosition 1 0 0;
     curLine := 1; lineStart := 0; curPositionFn := curPosition_method;
     containsEsc := false; exprAllowed := true; preValue := VNull;
     preToken := None; isLookahead := false; isAmbientContext := false;
     inType := false; heap := {[ 0%nat := [b_stat] ]}; signals := 0%nat |}.

(** A base tokenizer whose methods leave the parser as it is. *)
Definition idleTokenizer : BaseTokenizer :=
  {| super_updateContext := fun _ p => Some p;
     super_getTokenFromCode := fun _ p => Some p;
     readWord := fun p => Some p;
     jsx_readToken := fun p => Some p;
     jsx_readWord := fun p => Some p;
     jsx_readString := fun _ p => Some p;
     nonASCIIidentifierStart := fun _ => false |}.

(** Lexing an opening brace, as acorn's [getTokenFromCode(123)] does:
    [++this.pos; return this.finishToken(tt.braceL)]. *)
Definition lexBraceL (p : Parser) : Parser :=
  default p (@finishToken idleTokenizer tt_braceL VUndefined (set_pos (pos p + 1) p)).

(** The parser inside an opening JSX tag, after [<a b=]. *)
Definition inOpeningTag : Parser :=
  set_heap {[ 0%nat := [b_stat; tc_expr; tc_oTag] ]}
    (set_pos 5 (initialParser (str "<a b={1}/>"))).

(** A callback that reads ahead and then fails with a [TypeError], which
    is not a parse error. *)
Definition crashingCallback (abort : option string -> Thrown string) (p : Parser)
  : FnCompletion string * Parser :=
  (Throws (ThrownOther "TypeError"), set_pos (pos p + 7) p).

(** A callback that reads ahead and then raises a parse error. *)
Definition failingCallback (abort : option string -> Thrown string) (p : Parser)
  : FnCompletion string * Parser :=
  (Throws (ThrownSyntaxError (mkSyntaxError 3 (Text "Unexpected token"))),
   set_pos (pos p + 3) p).

(** The parser on [a<b>], inside a type context, about to read [<]. *)
Definition inTypeArguments : Parser :=
  set_inType true (set_pos 1 (initialParser (str "a<b>"))).

(** The same parser outside a type context, where an expression may
    start. *)
Definition inExpression : Parser :=
  set_pos 1 (initialParser (str "a<b>")).

(** A parser stopped on a token: the token's type, value and span, and
    where the token before it ended. *)
Definition parserAt (src : string) (type' : TokenType) (value' : Value)
    (startLoc' endLoc' lastTokEndLoc' : Position) : Parser :=
  {| input := str src; options := mkOptions 2022 true false;
     pos := index endLoc'; value := value'; type := type';
     start := index startLoc'; end_ := index endLoc';
     context := 0%nat;
     startLoc := startLoc'; lastTokEndLoc := lastTokEndLoc';
     endLoc := endLoc';
     lastTokEnd := index lastTokEndLoc'; lastTokStart := 0;
     lastTokStartLoc := mkPosition 1 0 0;
     curLine := line endLoc'; lineStart := index endLoc' - column endLoc';
     curPositionFn := curPosition_method;
     containsEsc := false; exprAllowed := false; preValue := VNull;
     preToken := None; isLookahead := false; isAmbientContext := false;
     inType := false; heap := {[ 0%nat := [b_stat] ]}; signals := 0%nat |}.

(** A stand-in for acorn's [next]: the bookkeeping of the previous token
    as acorn does it ([lastTokEnd = end], ...), then a one-character token
    of type [tt_name] in place of the real tokenizer. *)
Definition stepOneChar (p : Parser) : Parser :=
  {| input := input p; options := options p;
     pos := pos p + 1; value := VUndefined; type := tt_name;
     start := pos p; end_ := pos p + 1; context := context p;
     startLoc := curPosition p; lastTokEndLoc := endLoc p;
     endLoc := curPosition (set_pos (pos p + 1) p);
     lastTokEnd := end_ p; lastTokStart := start p;
     lastTokStartLoc := startLoc p; curLine := curLine p;
     lineStart := lineStart p; curPositionFn := curPositionFn p;
     containsEsc := false; exprAllowed := exprAllowed p;
     preValue := value p; preToken := Some (type p);
     isLookahead := isLookahead p;
     isAmbientContext := isAmbientContext p; inType := inType p;
     heap := heap p; signals := signals p |}.

(** A base parser whose [raise] and [raiseRecoverable] both throw a
    [SyntaxError], as acorn's do, with [stepOneChar] for [next]. *)
Definition throwingParser : BaseParser :=
  {| next := fun p => Normal tt (stepOneChar p);
     super_raise := fun pos' message p => Throw (mkSyntaxError pos' message) p;
     super_raiseRecoverable :=
       fun pos' message p => Throw (mkSyntaxError pos' message) p |}.

(** An ambient declaration [declare function f(...a, )], the parser on the
    comma after the rest element. *)
Definition onTrailingComma : Parser :=
  set_isAmbientContext true
    (parserAt "declare function f(...a, )" tt_comma (VStr (str ","))
       (mkPosition 1 23 23) (mkPosition 1 24 24) (mkPosition 1 23 23)).

(** The same declaration with a comment between the comma and the closing
    parenthesis, [declare function f(...a, /* c */ )], the parser on the
    comma. *)
Definition onCommaBeforeComment : Parser :=
  set_isAmbientContext true
    (parserAt "declare function f(...a, /* c */ )" tt_comma (VStr (str ","))
       (mkPosition 1 23 23) (mkPosition 1 24 24) (mkPosition 1 23 23)).

(** ** AST nodes *)

(** acorn's [SourceLocation]: [end] is undefined until the node is
    finished. *)
Record SourceLocation := mkSourceLocation {
  loc_start : Position;
  loc_end : option Position
}.

(** An AST node: its type tag, its span ([start], [end], [loc], and
    [range] when the [ranges] option is on), and its child nodes by
    property name. *)
Inductive Node := mkNode {
  node_type : string;
  node_start : Z;
  node_end : Z;
  node_loc : SourceLocation;
  node_range : option (Z * Z);
  node_props : list (string * Node)
}.

(** acorn's [startNodeAt(pos, loc)], that is [new Node(this, pos, loc)]:
    an empty type tag and a zero end. *)
Definition startNodeAt (pos' : Z) (loc : Position) (p : Parser) : Node :=
  {| node_type := ""; node_start := pos'; node_end := 0;
     node_loc := mkSourceLocation loc None;
     node_range := if ranges (options p) then Some (pos', 0) else None;
     node_props := [] |}.

(** acorn's [startNode()] *)
Definition startNode (p : Parser) : Node := startNodeAt (start p) (startLoc p) p.

(** acorn's [finishNode(node, type)]: the node ends where the last token
    ended. *)
Definition super_finishNode (p : Parser) (node' : Node) (type' : string) : Node :=
  {| node_type := type'; node_start := node_start node';
     node_end := lastTokEnd p;
     node_loc :=
       if locations (options p)
       then mkSourceLocation (loc_start (node_loc node')) (Some (lastTokEndLoc p))
       else node_loc node';
     node_range :=
       if ranges (options p)
       then (fun r => (r.1, lastTokEnd p)) <$> node_range node'
       else node_range node';
     node_props := node_props node' |}.

(** [finishNode(node, type)] *)
Definition finishNode (p : Parser) (node' : Node) (type' : string) : Node :=
  if bool_decide (node_type node' <> "") && bool_decide (node_end node' <> 0)
  then node'
  else super_finishNode p node' type'.

(** [resetStartLocation(node, start, startLoc)] *)
Definition resetStartLocation (p : Parser) (node' : Node) (start' : Z)
    (startLoc' : Position) : Node :=
  {| node_type := node_type node'; node_start := start';
     node_end := node_end node';
     node_loc := mkSourceLocation startLoc' (loc_end (node_loc node'));
     node_range :=
       if ranges (options p)
       then (fun r => (start', r.2)) <$> node_range node'
       else node_range node';
     node_props := node_props node' |}.

(** [resetEndLocation(node, endLoc = this.lastTokEndLoc)] *)
Definition resetEndLocation (p : Parser) (node' : Node) (endLoc' : option Position)
  : Node :=
  let endLoc := default (lastTokEndLoc p) endLoc' in
  {| node_type := node_type node'; node_start := node_start node';
     node_end := index endLoc;
     node_loc := mkSourceLocation (loc_start (node_loc node')) (Some endLoc);
     node_range :=
       if ranges (options p)
       then (fun r => (r.1, index endLoc)) <$> node_range node'
       else node_range node';
     node_props := node_props node' |}.

(** [node.key = child] *)
Definition set_prop (key : string) (child : Node) (node' : Node) : Node :=
  {| node_type := node_type node'; node_start := node_start node';
     node_end := node_end node'; node_loc := node_loc node';
     node_range := node_range node';
     node_props := node_props node' ++ [(key, child)] |}.

(** ** Subscripts and the postfix non-null assertion *)

(** [hasPrecedingLineBreak()]: acorn's [lineBreak] pattern finds a line
    terminator between the end of the last token and the start of this
    one. *)
Definition hasPrecedingLineBreak (p : Parser) : bool :=
  existsb isLineTerminator (slice (input p) (index (lastTokEndLoc p)) (start p)).

(** [tsMatchLeftRelational()] *)
Definition tsMatchLeftRelational (p : Parser) : bool :=
  match_ tt_relational p && bool_decide (value p = VStr (str "<")).

(** The subscript productions of [parseSubscript] other than the non-null
    assertion. Their bodies call deep into the expression grammar and are
    kept symbolic. *)
Inductive SubscriptProduction :=
| OptionalCallWithTypeArguments   (* [?.] followed by [<] *)
| TypeArgumentsInExpression       (* [<] or [<<]: call, instantiation, ... *)
| BaseSubscript.                  (* member access, call, tagged template *)

Class BaseExpressions := {
  otherSubscript :
    SubscriptProduction -> Node -> Z -> Position ->
    bool -> bool -> bool -> bool -> Parser -> Completion Node Parser
}.

Section Subscript.
Context `{BaseParser} `{BaseExpressions}.

(** [parseSubscript(base, startPos, startLoc, noCalls, maybeAsyncArrow,
    optionalChained, forInit)]. The first branch is the extension for the
    postfix [!]; the guards of the remaining branches are those of the
    source, in order; when none holds the function returns [base]. *)
Definition parseSubscript (base : Node) (startPos : Z) (startLoc' : Position)
    (noCalls maybeAsyncArrow optionalChained forInit : bool) (p : Parser)
  : Completion Node Parser :=
  if negb (hasPrecedingLineBreak p)
     && bool_decide (value p = VStr (str "!"))
     && match_ tt_prefix p
  then
    andThen (next (set_exprAllowed false p)) (fun _ p1 =>
      let nonNullExpression := startNodeAt startPos startLoc' p1 in
      let nonNullExpression := set_prop "expression" base nonNullExpression in
      Normal (finishNode p1 nonNullExpression "TSNonNullExpression") p1)
  else if match_ tt_questionDot p && bool_decide (lookaheadCharCode p = Some 60)
  then otherSubscript OptionalCallWithTypeArguments base startPos startLoc'
         noCalls maybeAsyncArrow optionalChained forInit p
  else if tsMatchLeftRelational p || match_ tt_bitShift p
  then otherSubscript TypeArgumentsInExpression base startPos startLoc'
         noCalls maybeAsyncArrow optionalChained forInit p
  else if ((11 <=? ecmaVersion (options p)) && match_ tt_questionDot p)
          || match_ tt_bracketL p || match_ tt_dot p
          || (negb noCalls && match_ tt_parenL p)
          || match_ tt_backQuote p
  then otherSubscript BaseSubscript base startPos startLoc'
         noCalls maybeAsyncArrow optionalChained forInit p
  else Normal base p.
End Subscript.

(** Expression productions that are never reached in the examples. *)
Definition noExpressions : BaseExpressions :=
  {| otherSubscript := fun _ base _ _ _ _ _ _ p => Normal base p |}.

(** An identifier node [x] spanning offsets 0 to 1. *)
Definition identifier_x : Node :=
  {| node_type := "Identifier"; node_start := 0; node_end := 1;
     node_loc := mkSourceLocation (mkPosition 1 0 0) (Some (mkPosition 1 1 1));
     node_range := None; node_props := [] |}.

(** The parser on [x!.y], the identifier read, the current token the
    [!]. *)
Definition onBang : Parser :=
  parserAt "x!.y" tt_prefix (VStr (str "!"))
    (mkPosition 1 1 1) (mkPosition 1 2 2) (mkPosition 1 1 1).

(** The parser on [x], a line feed, [!y]: the [!] opens the second
    line. *)
Definition onBangAfterNewline : Parser :=
  parserAt "x
!y" tt_prefix (VStr (str "!"))
    (mkPosition 2 0 2) (mkPosition 2 1 3) (mkPosition 1 1 1).

(** ** Reporting from the validation passes

    The validation passes below reach the diagnostics only through
    [this.raise(pos, message)]; they are written over an arbitrary state
    [S] and the [raise] it comes with. Two such states are used to read off
    what a pass reports. *)

(** A reporter that returns after each diagnostic (a base parser whose
    [raiseRecoverable] collects and continues): the state is the list of
    diagnostics so far. *)
Definition recordingRaise (pos' : Z) (message : Message) (log : list SyntaxError)
  : Completion unit (list SyntaxError) :=
  Normal tt (log ++ [mkSyntaxError pos' message]).

(** A reporter that throws (acorn's own [raiseRecoverable] is its
    [raise]). *)
Definition throwingRaise (pos' : Z) (message : Message) (s : unit)
  : Completion unit unit :=
  Throw (mkSyntaxError pos' message) s.

(** ** Tuple types *)

(** The element nodes [tsParseTupleElementType] builds, by type tag, with
    the properties the validation reads. [TSType] stands for every other
    type node. *)
Inductive TupleElement :=
| TSRestType (start' : Z) (typeAnnotation : TupleElement)
| TSOptionalType (start' : Z)
| TSNamedTupleMember (start' : Z) (optional : bool)
| TSType (type' : string) (start' : Z).

(** [elementNode.type] *)
Definition element_type (e : TupleElement) : string :=
  match e with
  | TSRestType _ _ => "TSRestType"
  | TSOptionalType _ => "TSOptionalType"
  | TSNamedTupleMember _ _ => "TSNamedTupleMember"
  | TSType t _ => t
  end.

(** [elementNode.start] *)
Definition element_start (e : TupleElement) : Z :=
  match e with
  | TSRestType s _ | TSOptionalType s | TSNamedTupleMember s _ | TSType _ s => s
  end.

(** [elementNode.optional]; a missing property reads as false. *)
Definition element_optional (e : TupleElement) : bool :=
  match e with
  | TSNamedTupleMember _ o => o
  | _ => false
  end.

(** [elementNode.typeAnnotation] *)
Definition element_typeAnnotation (e : TupleElement) : option TupleElement :=
  match e with
  | TSRestType _ a => Some a
  | _ => None
  end.

Section TupleType.
Context {S : Type}.
Variable raise : Z -> Message -> S -> Completion unit S.

(** The body of the [forEach] in [tsParseTupleType], for one element;
    the two locals it updates are returned. *)
Definition tupleElementCheck (seenOptionalElement : bool)
    (labeledElements : option bool) (elementNode : TupleElement) (s : S)
  : Completion (bool * option bool) S :=
  let type' := element_type elementNode in
  andThen
    (if seenOptionalElement
        && bool_decide (type' <> "TSRestType")
        && bool_decide (type' <> "TSOptionalType")
        && negb (bool_decide (type' = "TSNamedTupleMember")
                 && element_optional elementNode)
     then raise (element_start elementNode) (Template OptionalTypeBeforeRequired) s
     else Normal tt s)
    (fun _ s =>
       let seenOptionalElement :=
         seenOptionalElement
         || ((bool_decide (type' = "TSNamedTupleMember")
              && element_optional elementNode)
             || bool_decide (type' = "TSOptionalType")) in
       (* When checking labels, check the argument of the spread operator *)
       match (if bool_decide (type' = "TSRestType")
              then element_typeAnnotation elementNode
              else Some elementNode) with
       | None => Fault "TypeError" s
       | Some elementNode =>
         let checkType := element_type elementNode in
         let isLabeled := bool_decide (checkType = "TSNamedTupleMember") in
         let labeledElements := default isLabeled labeledElements in
         andThen
           (if negb (eqb labeledElements isLabeled)
            then raise (element_start elementNode)
                   (Template MixedLabeledAndUnlabeledElements) s
            else Normal tt s)
           (fun _ s => Normal (seenOptionalElement, Some labeledElements) s)
       end).

(** [node.elementTypes.forEach(...)] *)
Fixpoint tupleElementsCheck (elementTypes : list TupleElement)
    (seenOptionalElement : bool) (labeledElements : option bool) (s : S)
  : Completion unit S :=
  match elementTypes with
  | [] => Normal tt s
  | elementNode :: rest =>
    andThen (tupleElementCheck seenOptionalElement labeledElements elementNode s)
      (fun locals s => tupleElementsCheck rest locals.1 locals.2 s)
  end.

(** The validation [tsParseTupleType] runs once [tsParseBracketedList] has
    returned the element list. *)
Definition tsParseTupleType_validate (elementTypes : list TupleElement) (s : S)
  : Completion unit S :=
  tupleElementsCheck elementTypes false None s.
End TupleType.

(** The element is an optional one: [T?] or an optional named member. *)
Definition isOptionalElement (e : TupleElement) : bool :=
  bool_decide (element_type e = "TSOptionalType")
  || (bool_decide (element_type e = "TSNamedTupleMember") && element_optional e).

(** The element is a rest element. *)
Definition isRestElement (e : TupleElement) : bool :=
  bool_decide (element_type e = "TSRestType").

(** The element is a required one: neither rest nor optional. *)
Definition isRequiredElement (e : TupleElement) : bool :=
  negb (isRestElement e) && negb (isOptionalElement e).

(** The member whose label is looked at: the argument of a rest element,
    the element itself otherwise. *)
Definition labelCarrier (e : TupleElement) : TupleElement :=
  match e with
  | TSRestType _ a => a
  | _ => e
  end.

(** The element (or the argument of the rest element) is a named member. *)
Definition isLabeledElement (e : TupleElement) : bool :=
  bool_decide (element_type (labelCarrier e) = "TSNamedTupleMember").

(** The element carries the property its tag promises: a node tagged
    [TSRestType] has a [typeAnnotation]. *)
Definition wellTagged (e : TupleElement) : Prop :=
  element_type e = "TSRestType" -> is_Some (element_typeAnnotation e).

(** The two diagnostics of the validation, at the positions the source
    gives them. *)
Definition optionalBeforeRequired (e : TupleElement) : SyntaxError :=
  mkSyntaxError (element_start e) (Template OptionalTypeBeforeRequired).

Definition mixedLabels (e : TupleElement) : SyntaxError :=
  mkSyntaxError (element_start (labelCarrier e))
    (Template MixedLabeledAndUnlabeledElements).

(** The diagnostics the validation calls for, in order, from an element
    list and the values of the two locals. *)
Fixpoint tupleDiagnostics (elementTypes : list TupleElement)
    (seenOptionalElement : bool) (labeledElements : option bool)
  : list SyntaxError :=
  match elementTypes with
  | [] => []
  | e :: rest =>
    let labeled := default (isLabeledElement e) labeledElements in
    (if seenOptionalElement && isRequiredElement e
     then [optionalBeforeRequired e] else [])
    ++ (if negb (eqb labeled (isLabeledElement e)) then [mixedLabels e] else [])
    ++ tupleDiagnostics rest (seenOptionalElement || isOptionalElement e)
         (Some labeled)
  end.

(** [[string, number?]] *)
Definition tuple_string_optionalNumber : list TupleElement :=
  [TSType "TSStringKeyword" 1; TSOptionalType 9].

(** [[number?, string]] *)
Definition tuple_optionalNumber_string : list TupleElement :=
  [TSOptionalType 1; TSType "TSStringKeyword" 10].

(** [[a: string, number]] *)
Definition tuple_named_unnamed : list TupleElement :=
  [TSNamedTupleMember 1 false; TSType "TSNumberKeyword" 12].

(** ** Ambient variable statements *)

(** The expression nodes the ambient check looks into, by type tag.
    [Expr] stands for every other expression node (acorn's [Literal] and
    [Identifier] among them). *)
Inductive Expression :=
| MemberExpression (start' : Z) (computed : bool) (object property : Expression)
| TemplateLiteral (start' : Z) (expressions : list Expression)
| Expr (type' : string) (start' : Z).

(** [expression.type] *)
Definition expression_type (e : Expression) : string :=
  match e with
  | MemberExpression _ _ _ _ => "MemberExpression"
  | TemplateLiteral _ _ => "TemplateLiteral"
  | Expr t _ => t
  end.

(** [expression.start] *)
Definition expression_start (e : Expression) : Z :=
  match e with
  | MemberExpression s _ _ _ | TemplateLiteral s _ | Expr _ s => s
  end.

(** [expression.expressions]; [None] is [undefined]. *)
Definition expression_expressions (e : Expression) : option (list Expression) :=
  match e with
  | TemplateLiteral _ l => Some l
  | _ => None
  end.

(** [isUncomputedMemberExpressionChain(expression)]; [None] is the
    [TypeError] of reading [type] off a missing [object]. *)
Fixpoint isUncomputedMemberExpressionChain (expression : Expression) : option bool :=
  if bool_decide (expression_type expression = "Identifier") then Some true
  else if bool_decide (expression_type expression <> "MemberExpression") then Some false
  else
    match expression with
    | MemberExpression _ computed object _ =>
      if computed then Some false
      else isUncomputedMemberExpressionChain object
    | _ => None
    end.

(** [property.type !== 'TemplateLiteral' || property.expressions.length > 0] *)
Definition notPlainTemplate (e : Expression) : option bool :=
  if bool_decide (expression_type e <> "TemplateLiteral") then Some true
  else (fun l => bool_decide (l <> [])) <$> expression_expressions e.

(** [isPossiblyLiteralEnum(expression)] *)
Definition isPossiblyLiteralEnum (expression : Expression) : option bool :=
  if bool_decide (expression_type expression <> "MemberExpression") then Some false
  else
    match expression with
    | MemberExpression _ computed object property =>
      if computed then
        match notPlainTemplate property with
        | Some true => Some false
        | Some false => isUncomputedMemberExpressionChain object
        | None => None
        end
      else isUncomputedMemberExpressionChain object
    | _ => None
    end.

(** The binding of a declarator: its name and, when annotated, the tag of
    its type annotation. *)
Record BindingIdentifier := mkBindingIdentifier {
  binding_name : string;
  typeAnnotation : option string
}.

(** A [VariableDeclarator] as the base [parseVar] leaves it. *)
Record VariableDeclarator := mkVariableDeclarator {
  id : BindingIdentifier;
  init : option Expression
}.

Section VarStatement.
Context {S : Type}.
Variable raise : Z -> Message -> S -> Completion unit S.

(** The condition of the [else if] in [parseVarStatement]: the
    initializer is none of the admitted constant forms. *)
Definition notConstantInitializer (init' : Expression) : option bool :=
  if bool_decide (expression_type init' <> "StringLiteral")
     && bool_decide (expression_type init' <> "BooleanLiteral")
     && bool_decide (expression_type init' <> "NumericLiteral")
     && bool_decide (expression_type init' <> "BigIntLiteral")
  then
    match notPlainTemplate init' with
    | Some true => negb <$> isPossiblyLiteralEnum init'
    | other => other
    end
  else Some false.

(** The body of the [for ... of declaration.declarations] loop. *)
Definition ambientDeclaratorCheck (kind : string) (d : VariableDeclarator) (s : S)
  : Completion unit S :=
  match init d with
  | None => Normal tt s    (* Empty initializer is the easy case that we want. *)
  | Some init' =>
    if bool_decide (kind <> "const") || bool_decide (is_Some (typeAnnotation (id d)))
    then raise (expression_start init')
           (Template InitializerNotAllowedInAmbientContext) s
    else
      match notConstantInitializer init' with
      | Some true =>
        raise (expression_start init')
          (Template ConstInitiailizerMustBeStringOrNumericLiteralOrLiteralEnumReference) s
      | Some false => Normal tt s
      | None => Fault "TypeError" s
      end
  end.

Fixpoint ambientDeclaratorsCheck (kind : string)
    (declarations : list VariableDeclarator) (s : S) : Completion unit S :=
  match declarations with
  | [] => Normal tt s
  | d :: rest =>
    andThen (ambientDeclaratorCheck kind d s)
      (fun _ s => ambientDeclaratorsCheck kind rest s)
  end.

(** [parseVarStatement(node, kind, ...)] from the point where the base
    [parseVar] has filled [declaration.declarations]: nothing is checked
    outside an ambient context. *)
Definition parseVarStatement_check (isAmbientContext' : bool) (kind : string)
    (declarations : list VariableDeclarator) (s : S) : Completion unit S :=
  if negb isAmbientContext' then Normal tt s
  else ambientDeclaratorsCheck kind declarations s.
End VarStatement.

(** The declarators of the three statements of the ambient-initializer
    scenario, with the nodes acorn builds for the initializers: a string or
    a number literal is an ESTree [Literal]. *)

(** [declare const X = "a"] *)
Definition declare_const_X_a : list VariableDeclarator :=
  [mkVariableDeclarator (mkBindingIdentifier "X" None) (Some (Expr "Literal" 18))].

(** [declare let x = 1] *)
Definition declare_let_x_1 : list VariableDeclarator :=
  [mkVariableDeclarator (mkBindingIdentifier "x" None) (Some (Expr "Literal" 16))].

(** [declare const x: number = 1] *)
Definition declare_const_x_number_1 : list VariableDeclarator :=
  [mkVariableDeclarator (mkBindingIdentifier "x" (Some "TSNumberKeyword"))
     (Some (Expr "Literal" 26))].

(** [declare const X = E.A], an enum member reference. *)
Definition declare_const_X_enum : list VariableDeclarator :=
  [mkVariableDeclarator (mkBindingIdentifier "X" None)
     (Some (MemberExpression 18 false (Expr "Identifier" 18) (Expr "Identifier" 20)))].

(** ** Scope/Binding Extension *)

(** The constants of [acornScope] that [declareName] and
    [isRedeclaredInScope] read, with the values the source gives them. *)
Definition SCOPE_TOP : Z := 1.
Definition SCOPE_SIMPLE_CATCH : Z := 32.
Definition BIND_NONE : Z := 0.
Definition BIND_VAR : Z := 1.
Definition BIND_LEXICAL : Z := 2.
Definition BIND_FUNCTION : Z := 3.
Definition BIND_SIMPLE_CATCH : Z := 4.
Definition BIND_OUTSIDE : Z := 5.
Definition BIND_TS_TYPE : Z := 6.
Definition BIND_TS_INTERFACE : Z := 7.
Definition BIND_TS_NAMESPACE : Z := 8.
Definition BIND_FLAGS_TS_EXPORT_ONLY : Z := 1024.   (* 0b00010000_0000_00 *)
Definition BIND_FLAGS_TS_IMPORT : Z := 4096.        (* 0b01000000_0000_00 *)
Definition BIND_KIND_VALUE : Z := 0.
Definition BIND_KIND_TYPE : Z := 0.
Definition BIND_FLAGS_TS_ENUM : Z := 256.           (* 0b00000100_0000_00 *)
Definition BIND_FLAGS_TS_CONST_ENUM : Z := 512.     (* 0b00001000_0000_00 *)
Definition BIND_FLAGS_CLASS : Z := 128.             (* 0b00000010_0000_00 *)

(** [a & b] as a condition. *)
Definition hasFlag (a b : Z) : bool := negb (Z.land a b =? 0).

(** A scope: acorn's [flags], [var], [lexical] and [functions], and the
    five name lists [enterScope] adds. *)
Record Scope := mkScope {
  flags : Z;
  var : list string;
  lexical : list string;
  functions : list string;
  types : list string;
  enums : list string;
  constEnums : list string;
  classes : list string;
  exportOnlyBindings : list string
}.

(** The part of the parser the scope methods work on. *)
Record ScopeState := mkScopeState {
  scopeStack : list Scope;
  importsStack : list (list string);
  inModule : bool;
  undefinedExports : list string
}.

(** acorn's [currentScope()]: the last scope of the stack. *)
Definition currentScope (st : ScopeState) : option Scope := last (scopeStack st).

(** In-place update of the current scope object. *)
Definition updateCurrentScope (f : Scope -> Scope) (st : ScopeState) : ScopeState :=
  {| scopeStack :=
       match reverse (scopeStack st) with
       | [] => []
       | sc :: outer => reverse (f sc :: outer)
       end;
     importsStack := importsStack st; inModule := inModule st;
     undefinedExports := undefinedExports st |}.

Definition push_types (name : string) (sc : Scope) : Scope :=
  {| flags := flags sc; var := var sc; lexical := lexical sc;
     functions := functions sc; types := types sc ++ [name];
     enums := enums sc; constEnums := constEnums sc; classes := classes sc;
     exportOnlyBindings := exportOnlyBindings sc |}.

Definition push_enums (name : string) (sc : Scope) : Scope :=
  {| flags := flags sc; var := var sc; lexical := lexical sc;
     functions := functions sc; types := types sc;
     enums := enums sc ++ [name]; constEnums := constEnums sc;
     classes := classes sc; exportOnlyBindings := exportOnlyBindings sc |}.

Definition push_constEnums (name : string) (sc : Scope) : Scope :=
  {| flags := flags sc; var := var sc; lexical := lexical sc;
     functions := functions sc; types := types sc; enums := enums sc;
     constEnums := constEnums sc ++ [name]; classes := classes sc;
     exportOnlyBindings := exportOnlyBindings sc |}.

Definition push_classes (name : string) (sc : Scope) : Scope :=
  {| flags := flags sc; var := var sc; lexical := lexical sc;
     functions := functions sc; types := types sc; enums := enums sc;
     constEnums := constEnums sc; classes := classes sc ++ [name];
     exportOnlyBindings := exportOnlyBindings sc |}.

Definition push_exportOnlyBindings (name : string) (sc : Scope) : Scope :=
  {| flags := flags sc; var := var sc; lexical := lexical sc;
     functions := functions sc; types := types sc; enums := enums sc;
     constEnums := constEnums sc; classes := classes sc;
     exportOnlyBindings := exportOnlyBindings sc ++ [name] |}.

Definition push_var (name : string) (sc : Scope) : Scope :=
  {| flags := flags sc; var := var sc ++ [name]; lexical := lexical sc;
     functions := functions sc; types := types sc; enums := enums sc;
     constEnums := constEnums sc; classes := classes sc;
     exportOnlyBindings := exportOnlyBindings sc |}.

(** [list.indexOf(name) > -1] *)
Definition contains (name : string) (l : list string) : bool :=
  bool_decide (name ∈ l).

(** The message of a redeclaration,
    [`Identifier '${name}' has already been declared.`]. *)
Definition alreadyDeclared (name : string) : Message :=
  Text ("Identifier '" ++ name ++ "' has already been declared.").

(** Methods of the base scope handling (acorn) the overrides call. *)
Class BaseScopes := {
  super_declareName : string -> Z -> Z -> ScopeState -> Completion unit ScopeState;
  treatFunctionsAsVarInScope : Scope -> bool;
  scope_raise : Z -> Message -> ScopeState -> Completion unit ScopeState;
  undefinedExports_delete : string -> ScopeState -> Completion unit ScopeState
}.

Section Scopes.
Context `{BaseScopes}.

(** The local [scope] of [declareName] is the current scope object; the
    base [declareName] and the pushes below mutate that one object, so each
    use reads it off the state. Reading a property of a missing scope is a
    [TypeError]. *)
Definition withScope {A : Type} (st : ScopeState)
    (k : Scope -> Completion A ScopeState) : Completion A ScopeState :=
  match currentScope st with
  | Some scope => k scope
  | None => Fault "TypeError" st
  end.

(** [scope.list.push(name)] *)
Definition scope_push (f : Scope -> Scope) (st : ScopeState)
  : Completion unit ScopeState :=
  withScope st (fun _ => Normal tt (updateCurrentScope f st)).

(** [hasImport(name, allowShadow)]; [None] is the [TypeError] on an empty
    imports stack. *)
Definition hasImport (name : string) (allowShadow : bool) (st : ScopeState)
  : option bool :=
  match reverse (importsStack st) with
  | [] => None
  | top :: outer =>
    if contains name top then Some true
    else if negb allowShadow && existsb (contains name) outer then Some true
    else Some false
  end.

(** [maybeExportDefined(scope, name)] *)
Definition maybeExportDefined (name : string) (st : ScopeState)
  : Completion unit ScopeState :=
  if inModule st then
    withScope st (fun scope =>
      if hasFlag (flags scope) SCOPE_TOP
      then undefinedExports_delete name st
      else Normal tt st)
  else Normal tt st.

(** [isRedeclaredInScope(scope, name, bindingType)] *)
Definition isRedeclaredInScope (scope : Scope) (name : string) (bindingType : Z)
  : bool :=
  if negb (hasFlag bindingType BIND_KIND_VALUE) then false
  else if hasFlag bindingType BIND_LEXICAL then
    contains name (lexical scope) || contains name (functions scope)
    || contains name (var scope)
  else if hasFlag bindingType BIND_FUNCTION then
    contains name (lexical scope)
    || (negb (treatFunctionsAsVarInScope scope) && contains name (var scope))
  else
    (contains name (lexical scope)
     && negb (hasFlag (flags scope) SCOPE_SIMPLE_CATCH
              && bool_decide (head (lexical scope) = Some name)))
    || (negb (treatFunctionsAsVarInScope scope) && contains name (functions scope)).

(** [checkRedeclarationInScope(scope, name, bindingType, loc)] *)
Definition checkRedeclarationInScope (name : string) (bindingType loc : Z)
    (st : ScopeState) : Completion unit ScopeState :=
  if negb (hasFlag bindingType BIND_KIND_VALUE) then Normal tt st
  else
    withScope st (fun scope =>
      if isRedeclaredInScope scope name bindingType
      then scope_raise loc (alreadyDeclared name) st
      else Normal tt st).

(** The three conditional pushes that end [declareName]. *)
Definition declareName_flags (name : string) (bindingType : Z) (st : ScopeState)
  : Completion unit ScopeState :=
  andThen
    (if hasFlag bindingType BIND_FLAGS_TS_ENUM
     then scope_push (push_enums name) st else Normal tt st)
    (fun _ st =>
       andThen
         (if hasFlag bindingType BIND_FLAGS_TS_CONST_ENUM
          then scope_push (push_constEnums name) st else Normal tt st)
         (fun _ st =>
            if hasFlag bindingType BIND_FLAGS_CLASS
            then scope_push (push_classes name) st else Normal tt st)).

(** The [if (bindingType & BIND_KIND_TYPE)] block of [declareName]. *)
Definition declareName_type (name : string) (bindingType pos' : Z) (st : ScopeState)
  : Completion unit ScopeState :=
  if hasFlag bindingType BIND_KIND_TYPE then
    andThen
      (if negb (hasFlag bindingType BIND_KIND_VALUE) then
         (* "Value" bindings have already been registered by the
            superclass. *)
         andThen (checkRedeclarationInScope name bindingType pos' st)
           (fun _ st => maybeExportDefined name st)
       else Normal tt st)
      (fun _ st => scope_push (push_types name) st)
  else Normal tt st.

(** [declareName(name, bindingType, pos)] *)
Definition declareName (name : string) (bindingType pos' : Z) (st : ScopeState)
  : Completion unit ScopeState :=
  if hasFlag bindingType BIND_FLAGS_TS_IMPORT then
    match hasImport name true st with
    | None => Fault "TypeError" st
    | Some imported =>
      andThen
        (if imported then scope_raise pos' (alreadyDeclared name) st
         else Normal tt st)
        (fun _ st =>
           Normal tt
             {| scopeStack := scopeStack st;
                importsStack :=
                  match reverse (importsStack st) with
                  | [] => []
                  | top :: outer => reverse ((top ++ [name]) :: outer)
                  end;
                inModule := inModule st;
                undefinedExports := undefinedExports st |})
    end
  else if hasFlag bindingType BIND_FLAGS_TS_EXPORT_ONLY then
    andThen (maybeExportDefined name st)
      (fun _ st => scope_push (push_exportOnlyBindings name) st)
  else
    andThen (super_declareName name bindingType pos' st)
      (fun _ st =>
         andThen (declareName_type name bindingType pos' st)
           (fun _ st => declareName_flags name bindingType st)).
End Scopes.

(** A scope as [enterScope(flags)] leaves it. *)
Definition enterScope_scope (flags' : Z) : Scope :=
  {| flags := flags'; var := []; lexical := []; functions := [];
     types := []; enums := []; constEnums := []; classes := [];
     exportOnlyBindings := [] |}.

(** A script with its top scope entered and nothing declared. *)
Definition topLevel : ScopeState :=
  {| scopeStack := [enterScope_scope SCOPE_TOP]; importsStack := [[]];
     inModule := false; undefinedExports := [] |}.

(** A stand-in for the base scope handling: its [declareName] treats a
    binding type it has no case for as acorn does, as a [var]-style
    binding (the name is added to [var] of the current scope when no
    lexical binding clashes); [raise] throws. *)
Definition varStyleScopes : BaseScopes :=
  {| super_declareName := fun name bindingType pos' st =>
       match currentScope st with
       | Some sc =>
         if contains name (lexical sc)
         then Throw (mkSyntaxError pos'
                       (Text ("Identifier '" ++ name ++ "' has already been declared")))
                st
         else Normal tt (updateCurrentScope (push_var name) st)
       | None => Fault "TypeError" st
       end;
     treatFunctionsAsVarInScope := fun _ => true;
     scope_raise := fun pos' message st => Throw (mkSyntaxError pos' message) st;
     undefinedExports_delete := fun _ st => Normal tt st |}.

(** ** Modifier lists *)

(** The token stream as the modifier parser sees it: for each token, what
    the parser reads while that token is the current one. *)
Record Token := mkToken {
  tok_type : TokenType;
  tok_value : string;              (* this.value *)
  tok_start : Z;                   (* this.start *)
  tok_startLoc : Position;         (* this.startLoc *)
  tok_containsEsc : bool;          (* this.containsEsc *)
  tok_lineBreakBefore : bool;      (* this.hasPrecedingLineBreak() *)
  tok_lookaheadCharCode : option Z (* this.lookaheadCharCode() *)
}.

(** The end-of-file token an exhausted stream reads as. *)
Definition eofToken : Token :=
  mkToken tt_eof "" 0 (mkPosition 1 0 0) false false None.

(** The current token of a stream. *)
Definition currentToken (tokens : list Token) : Token := default eofToken (head tokens).

(** The token classes of [./tokenType] the modifier parser consults. *)
Class TokenClasses := {
  tokenIsIdentifier : TokenType -> bool;
  tokenIsLiteralPropertyName : TokenType -> bool
}.

(** A value stored in a property of the node under construction. *)
Inductive PropValue :=
| PBool (b : bool)
| PStr (s : string).

(** JavaScript truthiness of [object[key]]; a missing property is
    [undefined]. *)
Definition truthy (object : gmap string PropValue) (key : string) : bool :=
  match object !! key with
  | Some (PBool b) => b
  | Some (PStr s) => negb (String.eqb s "")
  | None => false
  end.

(** [Object.hasOwnProperty.call(object, key)] *)
Definition hasOwnProperty (object : gmap string PropValue) (key : string) : bool :=
  bool_decide (is_Some (object !! key)).

(** [list.indexOf(x) !== -1], [list.includes(x)] *)
Definition includes (x : string) (l : list string) : bool :=
  existsb (String.eqb x) l.

(** [tsIsClassAccessor(modifier)] *)
Definition tsIsClassAccessor (modifier : string) : bool :=
  String.eqb modifier "accessor".

(** [tsIsVarianceAnnotations(modifier)] *)
Definition tsIsVarianceAnnotations (modifier : string) : bool :=
  String.eqb modifier "in" || String.eqb modifier "out".

(** [tsIsAccessModifier(modifier)] *)
Definition tsIsAccessModifier (modifier : string) : bool :=
  String.eqb modifier "private" || String.eqb modifier "public"
  || String.eqb modifier "protected".

(** The arguments of [tsParseModifiers] other than [modified]. *)
Record ModifierOptions := mkModifierOptions {
  allowedModifiers : list string;
  disallowedModifiers : option (list string);
  stopOnStartOfClassStaticBlock : bool;
  errorTemplate : TypeScriptError
}.

(** What [tsParseModifiers] leaves: the map it returns, the [modified]
    object it has written to, and the tokens not consumed. *)
Record ModifiersResult := mkModifiersResult {
  modifiedMap : gmap string string;
  modified : gmap string PropValue;
  remaining : list Token
}.

Section Modifiers.
Context {S : Type} `{TokenClasses}.
Variable raise : Z -> Message -> S -> Completion unit S.

(** acorn's [isContextual(name)] *)
Definition isContextual (name : string) (cur : Token) : bool :=
  bool_decide (tok_type cur = tt_name) && String.eqb (tok_value cur) name
  && negb (tok_containsEsc cur).

(** [tsIsStartOfStaticBlocks()] *)
Definition tsIsStartOfStaticBlocks (cur : Token) : bool :=
  isContextual "static" cur && bool_decide (tok_lookaheadCharCode cur = Some 123).

(** [tsTokenCanFollowModifier()] *)
Definition tsTokenCanFollowModifier (cur : Token) : bool :=
  (bool_decide (tok_type cur = tt_bracketL)
   || bool_decide (tok_type cur = tt_braceL)
   || bool_decide (tok_type cur = tt_star)
   || bool_decide (tok_type cur = tt_ellipsis)
   || bool_decide (tok_type cur = tt_privateId)
   || tokenIsLiteralPropertyName (tok_type cur))
  && negb (tok_lineBreakBefore cur).

(** [tsParseModifier(allowedModifiers, stopOnStartOfClassStaticBlock)] with
    [cur] the current token and [rest] the tokens after it. The modifier is
    returned, and [cur] consumed, when the speculative
    [tsNextTokenCanFollowModifier] ([next()], then
    [tsTokenCanFollowModifier()]) succeeds; otherwise the state is put back
    and the result is [undefined]. *)
Definition tsParseModifier (allowed : list string) (stop : bool)
    (cur : Token) (rest : list Token) : option string :=
  if negb (tokenIsIdentifier (tok_type cur))
     && negb (bool_decide (tok_type cur = tt_keyword "in"))
  then None
  else
    let modifier := tok_value cur in
    if includes modifier allowed && negb (tok_containsEsc cur) then
      if stop && tsIsStartOfStaticBlocks cur then None
      else if tsTokenCanFollowModifier (currentToken rest) then Some modifier
      else None
    else None.

(** The local function [enforceOrder] of [tsParseModifiers]. *)
Definition enforceOrder (modified' : gmap string PropValue) (loc : Position)
    (modifier before after : string) (s : S) : Completion unit S :=
  if String.eqb modifier before && truthy modified' after
  then raise (column loc) (Template (InvalidModifiersOrder before after)) s
  else Normal tt s.

(** The local function [incompatible] of [tsParseModifiers]. *)
Definition incompatible (modified' : gmap string PropValue) (loc : Position)
    (modifier mod1 mod2 : string) (s : S) : Completion unit S :=
  if (truthy modified' mod1 && String.eqb modifier mod2)
     || (truthy modified' mod2 && String.eqb modifier mod1)
  then raise (column loc) (Template (IncompatibleModifiers mod1 mod2)) s
  else Normal tt s.

(** One turn of the loop of [tsParseModifiers] after [tsParseModifier]
    has returned [modifier]: [startLoc'] is [this.startLoc] as read before
    the modifier was consumed, [start'] is [this.start] as it is now (the
    start of the token after the modifier). *)
Definition modifierChecks (opts : ModifierOptions) (startLoc' : Position)
    (start' : Z) (modifier : string)
    (modifiedMap' : gmap string string) (modified' : gmap string PropValue)
    (s : S)
  : Completion (gmap string string * gmap string PropValue) S :=
  andThen
    (if tsIsAccessModifier modifier then
       if truthy modified' "accessibility" then
         andThen (raise start' (Template DuplicateAccessibilityModifier) s)
           (fun _ s => Normal (modifiedMap', modified') s)
       else
         andThen (enforceOrder modified' startLoc' modifier modifier "override" s)
           (fun _ s =>
         andThen (enforceOrder modified' startLoc' modifier modifier "static" s)
           (fun _ s =>
         andThen (enforceOrder modified' startLoc' modifier modifier "readonly" s)
           (fun _ s =>
         andThen (enforceOrder modified' startLoc' modifier modifier "accessor" s)
           (fun _ s =>
         Normal (<["accessibility" := modifier]> modifiedMap',
                 <["accessibility" := PStr modifier]> modified') s))))
     else if tsIsVarianceAnnotations modifier then
       if truthy modified' modifier then
         andThen (raise start' (Template (DuplicateModifier modifier)) s)
           (fun _ s => Normal (modifiedMap', modified') s)
       else
         andThen (enforceOrder modified' startLoc' modifier "in" "out" s)
           (fun _ s =>
         Normal (<[modifier := modifier]> modifiedMap',
                 <[modifier := PBool true]> modified') s)
     else if tsIsClassAccessor modifier then
       if truthy modified' modifier then
         andThen (raise start' (Template (DuplicateModifier modifier)) s)
           (fun _ s => Normal (modifiedMap', modified') s)
       else
         andThen (incompatible modified' startLoc' modifier "accessor" "readonly" s)
           (fun _ s =>
         andThen (incompatible modified' startLoc' modifier "accessor" "static" s)
           (fun _ s =>
         andThen (incompatible modified' startLoc' modifier "accessor" "override" s)
           (fun _ s =>
         Normal (<[modifier := modifier]> modifiedMap',
                 <[modifier := PBool true]> modified') s)))
     else
       if hasOwnProperty modified' modifier then
         andThen (raise start' (Template (DuplicateModifier modifier)) s)
           (fun _ s => Normal (modifiedMap', modified') s)
       else
         andThen (enforceOrder modified' startLoc' modifier "static" "readonly" s)
           (fun _ s =>
         andThen (enforceOrder modified' startLoc' modifier "static" "override" s)
           (fun _ s =>
         andThen (enforceOrder modified' startLoc' modifier "override" "readonly" s)
           (fun _ s =>
         andThen (enforceOrder modified' startLoc' modifier "abstract" "override" s)
           (fun _ s =>
         andThen (incompatible modified' startLoc' modifier "declare" "override" s)
           (fun _ s =>
         andThen (incompatible modified' startLoc' modifier "static" "abstract" s)
           (fun _ s =>
         Normal (<[modifier := modifier]> modifiedMap',
                 <[modifier := PBool true]> modified') s)))))))
    (fun maps s =>
       if match disallowedModifiers opts with
          | Some l => includes modifier l
          | None => false
          end
       then andThen (raise start' (Template (errorTemplate opts)) s)
              (fun _ s => Normal maps s)
       else Normal maps s).

(** The loop of [tsParseModifiers]; it ends when [tsParseModifier] returns
    [undefined], at the latest on the end-of-file token. *)
Fixpoint tsParseModifiers_loop (opts : ModifierOptions) (tokens : list Token)
    (modifiedMap' : gmap string string) (modified' : gmap string PropValue)
    (s : S) : Completion ModifiersResult S :=
  match tokens with
  | [] => Normal (mkModifiersResult modifiedMap' modified' []) s
  | cur :: rest =>
    let startLoc' := tok_startLoc cur in
    match tsParseModifier
            (allowedModifiers opts ++ default [] (disallowedModifiers opts))
            (stopOnStartOfClassStaticBlock opts) cur rest with
    | None => Normal (mkModifiersResult modifiedMap' modified' tokens) s
    | Some modifier =>
      andThen
        (modifierChecks opts startLoc' (tok_start (currentToken rest)) modifier
           modifiedMap' modified' s)
        (fun maps s => tsParseModifiers_loop opts rest maps.1 maps.2 s)
    end
  end.

(** [tsParseModifiers({ modified, allowedModifiers, disallowedModifiers,
    stopOnStartOfClassStaticBlock, errorTemplate })] *)
Definition tsParseModifiers (opts : ModifierOptions)
    (modified' : gmap string PropValue) (tokens : list Token) (s : S)
  : Completion ModifiersResult S :=
  tsParseModifiers_loop opts tokens ∅ modified' s.
End Modifiers.

(** Identifiers and keywords as [./tokenType] classifies them: names and
    the plugin's contextual keywords are identifiers; names, strings,
    numbers and all keywords are literal property names. *)
Definition wordClasses : TokenClasses :=
  {| tokenIsIdentifier := fun t =>
       match t with tt_name | tokTypes_ts _ => true | _ => false end;
     tokenIsLiteralPropertyName := fun t =>
       match t with
       | tt_name | tt_string | tt_num | tt_keyword _ | tokTypes_ts _ => true
       | _ => false
       end |}.

(** The words of a one-line source as tokens, from their start offsets. *)
Definition word (value' : string) (start' : Z) : Token :=
  mkToken tt_name value' start' (mkPosition 1 start' start') false false None.

(** The options [parseClassElement] passes. *)
Definition classMemberModifiers : ModifierOptions :=
  {| allowedModifiers :=
       ["declare"; "private"; "public"; "protected"; "accessor"; "override";
        "abstract"; "readonly"; "static"];
     disallowedModifiers := Some ["in"; "out"];
     stopOnStartOfClassStaticBlock := true;
     errorTemplate := InvalidModifierOnTypeParameterPositions |}.


(** [static public readonly x] *)
Definition static_public_readonly_x : list Token :=
  [word "static" 0; word "public" 7; word "readonly" 14; word "x" 23].

(** [abstract override x] *)
Definition abstract_override_x : list Token :=
  [word "abstract" 0; word "override" 9; word "x" 18].


(** [accessor readonly x] and [readonly accessor x] *)
Definition accessor_readonly_x : list Token :=
  [word "accessor" 0; word "readonly" 9; word "x" 18].

Definition readonly_accessor_x : list Token :=
  [word "readonly" 0; word "accessor" 9; word "x" 18].




(** [static public x] on the second line of the source, after one line
    break: [static] starts at offset 1, [public] at offset 8, which is
    line 2, column 7. *)
Definition newline_static_public_x : list Token :=
  [mkToken tt_name "static" 1 (mkPosition 2 0 1) false true None;
   mkToken tt_name "public" 8 (mkPosition 2 7 8) false false None;
   mkToken tt_name "x" 15 (mkPosition 2 14 15) false false None].

(** * Further methods of [index.ts] *)

(** ** Comments and line breaks *)

(** acorn's [isNewLine(code)], on what [charCodeAt] returns ([NaN] is no
    line break). *)
Definition isNewLine (code : option Z) : bool :=
  match code with
  | Some c => (c =? 10) || (c =? 13) || (c =? 8232) || (c =? 8233)
  | None => false
  end.

(** The [for] loop of [nextLineBreak], [n] indices from [i] on. *)
Fixpoint nextLineBreak_loop (code : jsstring) (end' : Z) (n : nat) (i : Z) : Z :=
  match n with
  | O => -1
  | S n' =>
    let next := charCodeAt code i in
    if isNewLine next then
      if (i <? end' - 1) && bool_decide (next = Some 13)
         && bool_decide (charCodeAt code (i + 1) = Some 10)
      then i + 2 else i + 1
    else nextLineBreak_loop code end' n' (i + 1)
  end.

(** [nextLineBreak(code, from, end)] *)
Definition nextLineBreak (code : jsstring) (from end' : Z) : Z :=
  nextLineBreak_loop code end' (Z.to_nat (end' - from)) from.

(** [options.onComment], when the embedder gives one: called with the
    block flag, the text, the span and the two positions. *)
Class CommentHook := {
  onComment :
    option (bool -> jsstring -> Z -> Z -> Position -> Position -> Parser -> Parser)
}.

(** The [while] loop of [skipLineComment]: from [i], at most [n] steps
    (the distance to the end of the input), up to a line break. *)
Fixpoint lineCommentEnd (code : jsstring) (n : nat) (i : Z) : Z :=
  match n with
  | O => i
  | S n' =>
    if isNewLine (charCodeAt code i) then i
    else lineCommentEnd code n' (i + 1)
  end.

(** [s.indexOf(a b, from)] for a two-character pattern, on the suffix [s]
    that starts at index [i]. *)
Fixpoint indexOf2_from (a b : Z) (s : jsstring) (i : Z) : Z :=
  match s with
  | c :: t =>
    match t with
    | d :: _ =>
      if (c =? a) && (d =? b) then i else indexOf2_from a b t (i + 1)
    | [] => -1
    end
  | [] => -1
  end.

(** [s.indexOf(a b, from)]; [from] is clamped to the string. *)
Definition indexOf2 (a b : Z) (s : jsstring) (from : Z) : Z :=
  let from := Z.max 0 (Z.min from (Z.of_nat (length s))) in
  indexOf2_from a b (drop (Z.to_nat from) s) from.

(** The line-counting loop of [skipBlockComment]: [lines] line breaks
    found so far, the last of them ending at [lineStart'] (when there is
    one); [pos'] is the local cursor. *)
Fixpoint countLineBreaks (code : jsstring) (end' : Z) (fuel : nat)
    (pos' : Z) (lines : Z) (lineStart' : option Z) : Z * option Z :=
  match fuel with
  | O => (lines, lineStart')
  | S fuel' =>
    let nextBreak := nextLineBreak code pos' end' in
    if -1 <? nextBreak
    then countLineBreaks code end' fuel' nextBreak (lines + 1) (Some nextBreak)
    else (lines, lineStart')
  end.

Definition set_lines (curLine' lineStart' : Z) (p : Parser) : Parser :=
  {| input := input p; options := options p; pos := pos p; value := value p;
     type := type p; start := start p; end_ := end_ p; context := context p;
     startLoc := startLoc p; lastTokEndLoc := lastTokEndLoc p;
     endLoc := endLoc p; lastTokEnd := lastTokEnd p;
     lastTokStart := lastTokStart p; lastTokStartLoc := lastTokStartLoc p;
     curLine := curLine'; lineStart := lineStart';
     curPositionFn := curPositionFn p; containsEsc := containsEsc p;
     exprAllowed := exprAllowed p; preValue := preValue p;
     preToken := preToken p; isLookahead := isLookahead p;
     isAmbientContext := isAmbientContext p; inType := inType p;
     heap := heap p; signals := signals p |}.

Section Comments.
Context `{BaseParser} `{CommentHook}.

(** [skipLineComment(startSkip)] *)
Definition skipLineComment (startSkip : Z) (p : Parser) : Parser :=
  let start' := pos p in
  let startLoc' := curPosition p in
  let pos1 := pos p + startSkip in
  let p1 :=
    set_pos (lineCommentEnd (input p)
               (Z.to_nat (Z.of_nat (length (input p)) - pos1)) pos1) p in
  if isLookahead p then p1
  else
    match onComment with
    | Some f =>
      f false (slice (input p) (start' + startSkip) (pos p1)) start' (pos p1)
        startLoc' (curPosition p1) p1
    | None => p1
    end.

(** [skipBlockComment()] *)
Definition skipBlockComment (p : Parser) : Completion unit Parser :=
  let startLoc' := curPosition p in
  let start' := pos p in
  let p := set_pos (pos p + 2) p in
  let end' := indexOf2 42 47 (input p) (pos p) in
  andThen
    (if end' =? -1 then raise (pos p - 2) (Text "Unterminated comment") p
     else Normal tt p)
    (fun _ p =>
       let p := set_pos (end' + 2) p in
       let p :=
         if locations (options p) then
           let '(lines, lineStart') :=
             countLineBreaks (input p) (pos p) (S (Z.to_nat (pos p - start')))
               start' 0 None in
           set_lines (curLine p + lines) (default (lineStart p) lineStart') p
         else p in
       if isLookahead p then Normal tt p
       else
         match onComment with
         | Some f =>
           Normal tt
             (f true (slice (input p) (start' + 2) end') start' (pos p)
                startLoc' (curPosition p) p)
         | None => Normal tt p
         end).
End Comments.

(** No comment callback. *)
Definition noCommentHook : CommentHook := {| onComment := None |}.

(** The parser on the two lines [a // b] and [c], the offset on the
    comment. *)
Definition onLineComment : Parser :=
  parserAt "a // b
c" tt_name (VStr (str "a")) (mkPosition 1 0 0) (mkPosition 1 2 2)
    (mkPosition 1 0 0).

(** A base parser whose [raiseRecoverable] records nothing and returns, as
    a tolerant embedder's does; [raise] throws. *)
Definition tolerantParser : BaseParser :=
  {| next := fun p => Normal tt (stepOneChar p);
     super_raise := fun pos' message p => Throw (mkSyntaxError pos' message) p;
     super_raiseRecoverable := fun _ _ p => Normal tt p |}.

(** The parser after [a], on a block comment that spans two lines. *)
Definition onBlockComment : Parser :=
  parserAt "a /* b
 c */ d" tt_name (VStr (str "a"))
    (mkPosition 1 0 0) (mkPosition 1 2 2) (mkPosition 1 0 0).

(** The parser after [a], on a block comment that is never closed. *)
Definition onOpenComment : Parser :=
  parserAt "a /* b" tt_name (VStr (str "a"))
    (mkPosition 1 0 0) (mkPosition 1 2 2) (mkPosition 1 0 0).

(** ** Look-ahead *)

Definition set_isLookahead (v : bool) (p : Parser) : Parser :=
  {| input := input p; options := options p; pos := pos p; value := value p;
     type := type p; start := start p; end_ := end_ p; context := context p;
     startLoc := startLoc p; lastTokEndLoc := lastTokEndLoc p;
     endLoc := endLoc p; lastTokEnd := lastTokEnd p;
     lastTokStart := lastTokStart p; lastTokStartLoc := lastTokStartLoc p;
     curLine := curLine p; lineStart := lineStart p;
     curPositionFn := curPositionFn p; containsEsc := containsEsc p;
     exprAllowed := exprAllowed p; preValue := preValue p;
     preToken := preToken p; isLookahead := v;
     isAmbientContext := isAmbientContext p; inType := inType p;
     heap := heap p; signals := signals p |}.

Definition set_value (v : Value) (p : Parser) : Parser :=
  {| input := input p; options := options p; pos := pos p; value := v;
     type := type p; start := start p; end_ := end_ p; context := context p;
     startLoc := startLoc p; lastTokEndLoc := lastTokEndLoc p;
     endLoc := endLoc p; lastTokEnd := lastTokEnd p;
     lastTokStart := lastTokStart p; lastTokStartLoc := lastTokStartLoc p;
     curLine := curLine p; lineStart := lineStart p;
     curPositionFn := curPositionFn p; containsEsc := containsEsc p;
     exprAllowed := exprAllowed p; preValue := preValue p;
     preToken := preToken p; isLookahead := isLookahead p;
     isAmbientContext := isAmbientContext p; inType := inType p;
     heap := heap p; signals := signals p |}.

Definition set_context (v : ref) (p : Parser) : Parser :=
  {| input := input p; options := options p; pos := pos p; value := value p;
     type := type p; start := start p; end_ := end_ p; context := v;
     startLoc := startLoc p; lastTokEndLoc := lastTokEndLoc p;
     endLoc := endLoc p; lastTokEnd := lastTokEnd p;
     lastTokStart := lastTokStart p; lastTokStartLoc := lastTokStartLoc p;
     curLine := curLine p; lineStart := lineStart p;
     curPositionFn := curPositionFn p; containsEsc := containsEsc p;
     exprAllowed := exprAllowed p; preValue := preValue p;
     preToken := preToken p; isLookahead := isLookahead p;
     isAmbientContext := isAmbientContext p; inType := inType p;
     heap := heap p; signals := signals p |}.

(** The state a method completes in. *)
Definition stateOf {A S : Type} (c : Completion A S) : S :=
  match c with
  | Normal _ s => s
  | Throw _ s => s
  | Fault _ s => s
  end.

(** [try { ... } finally { this.f = old }]: the assignment runs on every
    completion. *)
Definition finally {A S : Type} (c : Completion A S) (restore : S -> S)
  : Completion A S :=
  match c with
  | Normal a s => Normal a (restore s)
  | Throw e s => Throw e (restore s)
  | Fault w s => Fault w (restore s)
  end.

(** [this.context = [c]]: a newly allocated one-element array. *)
Definition context_fresh (c : TokContext) (p : Parser) : Parser :=
  let l := fresh (dom (heap p)) in
  set_context l (set_heap (<[l := [c]]> (heap p)) p).

(** [createLookaheadState()].  On an empty context stack the source builds
    the array [[undefined]]; the store holds arrays of contexts only, so
    that state is outside this model ([None]). *)
Definition createLookaheadState (p : Parser) : option Parser :=
  let p := set_value VNull p in
  c ← curContext p;
  Some (context_fresh c p).

(** acorn's [nextToken()]. *)
Class BaseLexer := {
  acorn_nextToken : Parser -> Completion unit Parser
}.

Section Lookahead.
Context `{BaseLexer}.

(** [for (let i = 0; i < number; i++) this.nextToken()] *)
Fixpoint nextTokens (n : nat) (p : Parser) : Completion unit Parser :=
  match n with
  | O => Normal tt p
  | S n' => andThen (acorn_nextToken p) (fun _ p1 => nextTokens n' p1)
  end.

(** [lookahead(number?)]; [None] only where [createLookaheadState] is
    outside the model. *)
Definition lookahead (number : option Z) (p : Parser)
  : option (Completion LookaheadState.t Parser) :=
  let oldState := getCurLookaheadState p in
  p ← createLookaheadState p;
  let p := set_isLookahead true p in
  Some
    (andThen
       (match number with
        | Some number => nextTokens (Z.to_nat number) p
        | None => acorn_nextToken p
        end)
       (fun _ p =>
          let p := set_isLookahead false p in
          let curState := getCurLookaheadState p in
          Normal curState (setLookaheadState oldState p))).

(** [tsInNoContext(cb)]; [oldContext[0]] of an empty stack is [undefined],
    outside the model as for [createLookaheadState]. *)
Definition tsInNoContext {T : Type} (cb : Parser -> Completion T Parser)
    (p : Parser) : option (Completion T Parser) :=
  let oldContext := context p in
  c ← head (contextArray p);
  let p := context_fresh c p in
  Some (finally (cb p) (set_context oldContext)).
End Lookahead.

(** [tsInType(cb)] *)
Definition tsInType {T : Type} (cb : Parser -> Completion T Parser) (p : Parser)
  : Completion T Parser :=
  let oldInType := inType p in
  let p := set_inType true p in
  finally (cb p) (set_inType oldInType).

(** [tsInAmbientContext(cb)] *)
Definition tsInAmbientContext {T : Type} (cb : Parser -> Completion T Parser)
    (p : Parser) : Completion T Parser :=
  let oldIsAmbientContext := isAmbientContext p in
  let p := set_isAmbientContext true p in
  finally (cb p) (set_isAmbientContext oldIsAmbientContext).

(** A lexer that reads an opening brace at every step. *)
Definition braceLexer : BaseLexer :=
  {| acorn_nextToken := fun p => Normal tt (lexBraceL p) |}.

(** A lexer that throws on the second character it is asked to pass. *)
Definition failingLexer : BaseLexer :=
  {| acorn_nextToken := fun p =>
       if pos p <? 6 then Normal tt (lexBraceL p)
       else Throw (mkSyntaxError (pos p) (Text "Unexpected character")) p |}.

(** ** Re-scanning *)

Section ReScan.
Context `{BaseTokenizer}.

(** [reScan_lt()]: the token type it returns, and the parser. *)
Definition reScan_lt (p : Parser) : option (TokenType * Parser) :=
  let type' := type p in
  if decide (type' = tt_bitShift) then
    p ← finishOp tt_relational 1 (set_pos (pos p - 2) p);
    Some (tt_relational, p)
  else Some (type', p).
End ReScan.

(** The parser on the token [<<] of [f<<T>() => void>()], lexed as a
    shift operator. *)
Definition onShift : Parser :=
  parserAt "f<<T>() => void>()" tt_bitShift (VStr (str "<<"))
    (mkPosition 1 1 1) (mkPosition 1 3 3) (mkPosition 1 1 1).

(** The parser inside an opening JSX tag on the slash of [<a/>]: the token
    [/] has just got its type, after a [jsxTagStart]. *)
Definition onClosingSlash : Parser :=
  set_heap {[ 0%nat := [b_stat; tc_expr; tc_oTag] ]}
    (parserAt "</a>" tt_slash (VStr (str "/"))
       (mkPosition 1 1 1) (mkPosition 1 2 2) (mkPosition 1 0 0)).

(** ** Imports and exports *)





(** A namespace body inside a script that imports [a]: two import lists,
    two scopes. *)
Definition inNamespace : ScopeState :=
  {| scopeStack := [enterScope_scope SCOPE_TOP; enterScope_scope 0];
     importsStack := [["a"]; []];
     inModule := false; undefinedExports := [] |}.

(** ** Enum member references *)

(** The expression [root.p1.p2...pn]: non-computed member accesses applied
    to [root] from the inside out, each with its start offset and property
    node. *)
Definition memberChain (root : Expression) (props : list (Z * Expression))
  : Expression :=
  fold_left (fun object sp => MemberExpression sp.1 false object sp.2) props root.

(** ** Accessor parameters *)

(** A parameter node of a method, with what [parseGetterSetter] reads of
    it. *)
Record Param := mkParam {
  param_type : string;
  param_name : option string;
  param_start : Z
}.

(** [isThisParam(param)] *)
Definition isThisParam (param : Param) : bool :=
  bool_decide (param_type param = "Identifier")
  && bool_decide (param_name param = Some "this").

Section GetterSetter.
Context {S : Type}.
Variable raiseRecoverable : Z -> Message -> S -> Completion unit S.

(** [parseGetterSetter(prop)] from the point where [parseMethod] has
    filled [prop.value]: [kind] is [prop.kind], [start'] is
    [prop.value.start], [params] is [prop.value.params]. *)
Definition parseGetterSetter_check (kind : string) (start' : Z)
    (params : list Param) (s : S) : Completion unit S :=
  let paramCount := if bool_decide (kind = "get") then 0%nat else 1%nat in
  let hasContextParam :=
    match head params with
    | Some firstParam => isThisParam firstParam
    | None => false
    end in
  let paramCount := if hasContextParam then (paramCount + 1)%nat else paramCount in
  if bool_decide (length params <> paramCount) then
    if bool_decide (kind = "get")
    then raiseRecoverable start' (Text "getter should have no params") s
    else raiseRecoverable start' (Text "setter should have exactly one param") s
  else
    if bool_decide (kind = "set") then
      match head params with
      | Some firstParam =>
        if bool_decide (param_type firstParam = "RestElement")
        then raiseRecoverable (param_start firstParam)
               (Text "Setter cannot use rest params") s
        else Normal tt s
      | None => Fault "TypeError" s
      end
    else Normal tt s.
End GetterSetter.

(** The parameters of [set x(this: T, ...rest)]. *)
Definition this_and_rest : list Param :=
  [mkParam "Identifier" (Some "this") 6; mkParam "RestElement" None 15].

(** * Properties *)

(** ** Look-ahead snapshots *)

Lemma setLookaheadState_getCurLookaheadState (p : Parser) :
  setLookaheadState (getCurLookaheadState p) p = p.
Proof. destruct p; reflexivity. Qed.

Lemma contextArray_lookup (p : Parser) :
  wf p -> heap p !! context p = Some (contextArray p).
Proof.
  unfold wf, contextArray. intros Hin.
  apply elem_of_dom in Hin as [a Ha]. rewrite Ha. reflexivity.
Qed.

Lemma clone_fresh (p : Parser) :
  LookaheadState.context (cloneCurLookaheadState p).1 ∉ dom (heap p).
Proof. simpl. apply is_fresh. Qed.

Lemma clone_not_live (p : Parser) :
  wf p -> LookaheadState.context (cloneCurLookaheadState p).1 ≠ context p.
Proof.
  intros Hwf Heq. pose proof (clone_fresh p) as Hf.
  rewrite Heq in Hf. exact (Hf Hwf).
Qed.

(** Restoring a snapshot sets the scalar fields from the snapshot. *)
Lemma scalars_setLookaheadState (st : LookaheadState.t) (p : Parser) :
  getCurLookaheadState (setLookaheadState st p) = st.
Proof. destruct st; reflexivity. Qed.

Lemma heap_setLookaheadState (st : LookaheadState.t) (p : Parser) :
  heap (setLookaheadState st p) = heap p.
Proof. reflexivity. Qed.

Section Advance.
(** One token advance of the base tokenizer. It may write every field of
    the parser; of the store it may only mutate the live context array in
    place or make a newly allocated array the live one. *)
Variable nextToken : Parser -> Parser.
Hypothesis nextToken_wf : forall p, wf p -> wf (nextToken p).
Hypothesis nextToken_frame : forall p l,
  wf p -> l ∈ dom (heap p) -> l ≠ context p ->
  heap (nextToken p) !! l = heap p !! l /\ context (nextToken p) ≠ l.

Lemma advance_wf n p : wf p -> wf (advance nextToken n p).
Proof. unfold advance. induction n; simpl; auto. Qed.

Lemma advance_frame n p l :
  wf p -> l ∈ dom (heap p) -> l ≠ context p ->
  heap (advance nextToken n p) !! l = heap p !! l
  /\ context (advance nextToken n p) ≠ l
  /\ l ∈ dom (heap (advance nextToken n p)).
Proof.
  intros Hwf Hl Hne. induction n as [|n IH].
  - unfold advance; simpl. auto.
  - destruct IH as (Hh & Hc & Hd).
    destruct (nextToken_frame (advance nextToken n p) l) as [Hh' Hc'];
      auto using advance_wf.
    change (advance nextToken (S n) p) with (nextToken (advance nextToken n p)).
    split; [congruence|]. split; [exact Hc'|].
    apply elem_of_dom. rewrite Hh'. apply elem_of_dom. exact Hd.
Qed.

(** A cloned snapshot keeps the context stack it captured, whatever the
    tokenizer does afterwards. *)
Lemma clone_immune n p :
  wf p ->
  heap (advance nextToken n (cloneCurLookaheadState p).2)
    !! LookaheadState.context (cloneCurLookaheadState p).1
  = Some (contextArray p).
Proof.
  intros Hwf.
  pose proof (clone_fresh p) as Hl. pose proof (clone_not_live p Hwf) as Hne.
  set (l := LookaheadState.context (cloneCurLookaheadState p).1) in *.
  assert (Hp1 : heap (cloneCurLookaheadState p).2 = <[l := contextArray p]> (heap p))
    by reflexivity.
  assert (Hc1 : context (cloneCurLookaheadState p).2 = context p) by reflexivity.
  set (p1 := (cloneCurLookaheadState p).2) in *.
  assert (Hdom : l ∈ dom (heap p1)).
  { rewrite Hp1. apply elem_of_dom. rewrite lookup_insert_eq. eauto. }
  assert (Hwf1 : wf p1).
  { unfold wf. rewrite Hc1, Hp1. apply elem_of_dom.
    rewrite lookup_insert_ne by exact Hne. apply elem_of_dom. exact Hwf. }
  assert (Hne1 : l ≠ context p1) by (rewrite Hc1; exact Hne).
  destruct (advance_frame n p1 l Hwf1 Hdom Hne1) as (Hh & _ & _).
  rewrite Hh, Hp1. apply lookup_insert_eq.
Qed.

Lemma observe_clone_advance n p :
  wf p ->
  observe (setLookaheadState (cloneCurLookaheadState p).1
             (advance nextToken n (cloneCurLookaheadState p).2))
  = observe p.
Proof.
  intros Hwf. pose proof (clone_immune n p Hwf) as Him.
  unfold observe. rewrite scalars_setLookaheadState.
  unfold contextArray at 1. rewrite heap_setLookaheadState.
  change (context (setLookaheadState ?s _)) with (LookaheadState.context s).
  rewrite Him. reflexivity.
Qed.
End Advance.

(** [lexBraceL] is a tokenizer step of the admitted kind: it pushes onto
    the live context array in place and touches no other array. *)
Lemma lexBraceL_shape (p : Parser) :
  context (lexBraceL p) = context p
  /\ (heap (lexBraceL p) = heap p
      \/ exists a, heap (lexBraceL p) = <[context p := a]> (heap p)).
Proof.
  unfold lexBraceL, finishToken, updateContext; simpl.
  destruct (isLookahead p); simpl; [auto|].
  repeat case_decide; simpl; try congruence; auto.
  all: split; [reflexivity|right; eexists; reflexivity].
Qed.

Lemma lexBraceL_wf (p : Parser) : wf p -> wf (lexBraceL p).
Proof.
  unfold wf. destruct (lexBraceL_shape p) as [-> [-> | [a ->]]]; [auto|].
  intros Hin. apply elem_of_dom. rewrite lookup_insert_eq. eauto.
Qed.

Lemma lexBraceL_frame (p : Parser) (l : ref) :
  wf p -> l ∈ dom (heap p) -> l ≠ context p ->
  heap (lexBraceL p) !! l = heap p !! l /\ context (lexBraceL p) ≠ l.
Proof.
  intros _ _ Hne. destruct (lexBraceL_shape p) as [-> [-> | [a ->]]].
  - split; [reflexivity | congruence].
  - split; [apply lookup_insert_ne; congruence | congruence].
Qed.

Lemma inOpeningTag_wf : wf inOpeningTag.
Proof. unfold wf. apply elem_of_dom. vm_compute. eauto. Qed.

(** C1 (as amended). Restoring a snapshot right after taking it changes
    nothing the parser can observe, for both snapshot functions. A snapshot
    taken with [cloneCurLookaheadState] owns a copy of the context stack:
    after any number of token advances it still holds the stack it
    captured, and restoring it reproduces the token, the offsets, the
    line/column bookkeeping and the context stack observed at capture.
    A snapshot taken with [getCurLookaheadState] holds the sixteen fields by
    value, the context stack by reference: restoring it reproduces every
    field, the address of the context array included. *)
Theorem snapshot_restore_roundtrip
    (nextToken : Parser -> Parser)
    (nextToken_wf : forall p, wf p -> wf (nextToken p))
    (nextToken_frame : forall p l,
       wf p -> l ∈ dom (heap p) -> l ≠ context p ->
       heap (nextToken p) !! l = heap p !! l /\ context (nextToken p) ≠ l)
    (p : Parser) (n : nat) :
  wf p ->
  setLookaheadState (getCurLookaheadState p) p = p
  /\ observe (setLookaheadState (cloneCurLookaheadState p).1
                (cloneCurLookaheadState p).2) = observe p
  /\ observe (setLookaheadState (cloneCurLookaheadState p).1
                (advance nextToken n (cloneCurLookaheadState p).2)) = observe p
  /\ heap (advance nextToken n (cloneCurLookaheadState p).2)
       !! LookaheadState.context (cloneCurLookaheadState p).1
     = Some (contextArray p)
  /\ getCurLookaheadState
       (setLookaheadState (getCurLookaheadState p) (advance nextToken n p))
     = getCurLookaheadState p.
Proof.
  intros Hwf. split; [|split; [|split; [|split]]].
  - apply setLookaheadState_getCurLookaheadState.
  - exact (observe_clone_advance nextToken nextToken_wf nextToken_frame 0 p Hwf).
  - exact (observe_clone_advance nextToken nextToken_wf nextToken_frame n p Hwf).
  - exact (clone_immune nextToken nextToken_wf nextToken_frame n p Hwf).
  - apply scalars_setLookaheadState.
Qed.

Lemma snapshot_restore_roundtrip_witness :
  wf inOpeningTag
  /\ observe (setLookaheadState (cloneCurLookaheadState inOpeningTag).1
                (advance lexBraceL 2 (cloneCurLookaheadState inOpeningTag).2))
     = observe inOpeningTag.
Proof.
  split; [exact inOpeningTag_wf|].
  exact (proj1 (proj2 (proj2
    (snapshot_restore_roundtrip lexBraceL lexBraceL_wf lexBraceL_frame
       inOpeningTag 2 inOpeningTag_wf)))).
Defined.

(** The claim as stated fails for [getCurLookaheadState]: lexing [{] inside
    an opening tag pushes [b_expr] onto the very array the snapshot holds,
    and restoring the snapshot brings back the longer stack. *)
Lemma getCurLookaheadState_shares_context :
  ~ (forall (nextToken : Parser -> Parser),
       (forall p, wf p -> wf (nextToken p)) ->
       (forall p l, wf p -> l ∈ dom (heap p) -> l ≠ context p ->
          heap (nextToken p) !! l = heap p !! l /\ context (nextToken p) ≠ l) ->
       forall p n, wf p ->
         observe (setLookaheadState (getCurLookaheadState p) (advance nextToken n p))
         = observe p).
Proof.
  intros Hclaim.
  specialize (Hclaim lexBraceL lexBraceL_wf lexBraceL_frame inOpeningTag 1%nat
                inOpeningTag_wf).
  apply (f_equal snd) in Hclaim. vm_compute in Hclaim. discriminate Hclaim.
Qed.

Example getCurLookaheadState_aliasing :
  contextArray inOpeningTag = [b_stat; tc_expr; tc_oTag]
  /\ contextArray (tsLookAhead (fun p => (tt, lexBraceL p)) inOpeningTag).2
     = [b_stat; tc_expr; tc_oTag; b_expr]
  /\ contextArray (setLookaheadState (getCurLookaheadState inOpeningTag)
                     (lexBraceL inOpeningTag))
     = [b_stat; tc_expr; tc_oTag; b_expr]
  /\ contextArray (setLookaheadState (cloneCurLookaheadState inOpeningTag).1
                     (lexBraceL (cloneCurLookaheadState inOpeningTag).2))
     = [b_stat; tc_expr; tc_oTag].
Proof. repeat split; vm_compute; reflexivity. Qed.

(** ** Speculative parsing *)

(** C2 (as amended). [tryParse(fn)] on the state [p], with [old] the
    snapshot it restores (the argument, or by default a clone taken on
    entry) and [p2] the state [fn] leaves:
    (1) [fn] returns: success with [node] set, no error, [thrown] and
        [aborted] false, and the state is the one [fn] left;
    (2) [fn] throws the abort signal of this call: [old] is restored and
        the result is [aborted] with the node given to [abort], no error;
    (3) [fn] throws a [SyntaxError]: [old] is restored and the result is
        [thrown] with the error captured; nothing propagates;
    (4) [fn] throws anything else: the value is rethrown, after [old] has
        been restored.
    With the default snapshot the restored token, offsets and line/column
    fields are those the parser had before the call, and so is the context
    stack as long as the callback has left the snapshot's own copy of the
    array alone. *)
Theorem tryParse_outcomes {T : Type}
    (fn : (option T -> Thrown T) -> Parser -> FnCompletion T * Parser)
    (oldState : option LookaheadState.t) (p p2 : Parser) :
  let entry := match oldState with
               | Some s => (s, p)
               | None => cloneCurLookaheadState p
               end in
  let old := entry.1 in
  let abortSignal := signals entry.2 in
  let p1 := set_signals (S abortSignal) entry.2 in
  let abort := fun node => ThrownAbortSignal abortSignal node in
  (forall n, fn abort p1 = (Returns n, p2) ->
     tryParse fn oldState p
     = (inl {| node := Some n; error := None; thrown := false;
               aborted := false; failState := None |}, p2))
  /\ (forall n, fn abort p1 = (Throws (abort n), p2) ->
     tryParse fn oldState p
     = (inl {| node := n; error := None; thrown := false;
               aborted := true; failState := Some (getCurLookaheadState p2) |},
        setLookaheadState old p2))
  /\ (forall e, fn abort p1 = (Throws (ThrownSyntaxError e), p2) ->
     tryParse fn oldState p
     = (inl {| node := None; error := Some e; thrown := true;
               aborted := false; failState := Some (getCurLookaheadState p2) |},
        setLookaheadState old p2))
  /\ (forall err, fn abort p1 = (Throws err, p2) ->
     (forall e, err <> ThrownSyntaxError e) ->
     (forall n, err <> abort n) ->
     tryParse fn oldState p = (inr err, setLookaheadState old p2))
  /\ (oldState = None ->
      LookaheadState.with_context 0%nat
        (getCurLookaheadState (setLookaheadState old p2))
      = LookaheadState.with_context 0%nat (getCurLookaheadState p))
  /\ (oldState = None ->
      heap p2 !! LookaheadState.context old = Some (contextArray p) ->
      observe (setLookaheadState old p2) = observe p).
Proof.
  intros entry old abortSignal p1 abort.
  assert (Hdef : tryParse fn oldState p =
    match fn abort p1 with
    | (Returns n, q) =>
      (inl {| node := Some n; error := None; thrown := false;
              aborted := false; failState := None |}, q)
    | (Throws err, q) =>
      match err with
      | ThrownSyntaxError e =>
        (inl {| node := None; error := Some e; thrown := true;
                aborted := false; failState := Some (getCurLookaheadState q) |},
         setLookaheadState old q)
      | ThrownAbortSignal id n =>
        if decide (id = abortSignal) then
          (inl {| node := n; error := None; thrown := false;
                  aborted := true; failState := Some (getCurLookaheadState q) |},
           setLookaheadState old q)
        else (inr err, setLookaheadState old q)
      | ThrownOther _ => (inr err, setLookaheadState old q)
      end
    end).
  { unfold tryParse, abort, p1, abortSignal, old, entry.
    destruct oldState; reflexivity. }
  rewrite Hdef. split; [|split; [|split; [|split; [|split]]]].
  - intros n ->. reflexivity.
  - intros n ->. unfold abort. rewrite decide_True by reflexivity. reflexivity.
  - intros e ->. reflexivity.
  - intros err -> Hsyn Hab. destruct err as [e|id n|w].
    + exfalso. exact (Hsyn e eq_refl).
    + case_decide as Hid; [|reflexivity].
      exfalso. apply (Hab n). unfold abort. rewrite Hid. reflexivity.
    + reflexivity.
  - intros ->. rewrite scalars_setLookaheadState. reflexivity.
  - intros -> Hkept. unfold observe. rewrite scalars_setLookaheadState.
    unfold contextArray at 1. rewrite heap_setLookaheadState.
    change (context (setLookaheadState ?s _)) with (LookaheadState.context s).
    rewrite Hkept. reflexivity.
Qed.

Lemma tryParse_outcomes_witness :
  tryParse failingCallback None (initialParser (str "a<b>(c)"))
  = (inl {| node := None;
            error := Some (mkSyntaxError 3 (Text "Unexpected token"));
            thrown := true; aborted := false;
            failState :=
              Some (getCurLookaheadState
                      (failingCallback
                         (fun n => ThrownAbortSignal 0%nat n)
                         (set_signals 1%nat
                            (cloneCurLookaheadState
                               (initialParser (str "a<b>(c)"))).2)).2) |},
     setLookaheadState
       (cloneCurLookaheadState (initialParser (str "a<b>(c)"))).1
       (failingCallback
          (fun n => ThrownAbortSignal 0%nat n)
          (set_signals 1%nat
             (cloneCurLookaheadState (initialParser (str "a<b>(c)"))).2)).2).
Proof.
  apply (proj1 (proj2 (proj2
    (tryParse_outcomes failingCallback None (initialParser (str "a<b>(c)"))
       (failingCallback (fun n => ThrownAbortSignal 0%nat n)
          (set_signals 1%nat
             (cloneCurLookaheadState (initialParser (str "a<b>(c)"))).2)).2)))).
  reflexivity.
Defined.

(** The fourth case as stated fails: a value that is neither a parse error
    nor the abort signal is rethrown, but the catch block has restored the
    snapshot first, so the state is not the one the callback left. *)
Lemma tryParse_restores_before_rethrow :
  ~ (forall (fn : (option string -> Thrown string) -> Parser
                  -> FnCompletion string * Parser)
            (p p2 : Parser) (err : Thrown string),
       let entry := cloneCurLookaheadState p in
       let abortSignal := signals entry.2 in
       let p1 := set_signals (S abortSignal) entry.2 in
       let abort := fun node => ThrownAbortSignal abortSignal node in
       fn abort p1 = (Throws err, p2) ->
       (forall e, err <> ThrownSyntaxError e) ->
       (forall n, err <> abort n) ->
       tryParse fn None p = (inr err, p2)).
Proof.
  intros Hclaim.
  pose (p := initialParser (str "a<b>(c)")).
  pose (p1 := set_signals 1%nat (cloneCurLookaheadState p).2).
  specialize (Hclaim crashingCallback p (set_pos (pos p1 + 7) p1)
                (ThrownOther "TypeError")).
  simpl in Hclaim.
  assert (Hpos : pos (tryParse crashingCallback None p).2 = 0) by reflexivity.
  rewrite Hclaim in Hpos; [discriminate Hpos| reflexivity | discriminate | discriminate].
Qed.

Example tryParse_rethrow_state :
  let p := initialParser (str "a<b>(c)") in
  (tryParse crashingCallback None p).1 = inr (ThrownOther "TypeError")
  /\ pos (crashingCallback (fun n => ThrownAbortSignal 0%nat n) p).2 = 7
  /\ pos (tryParse crashingCallback None p).2 = 0.
Proof. repeat split; reflexivity. Qed.

(** ** Tokenizer *)

Lemma slice_one (s : jsstring) (i c : Z) :
  charCodeAt s i = Some c -> slice s i (i + 1) = [c].
Proof.
  unfold charCodeAt, slice. destruct (Z.ltb_spec i 0) as [|Hi]; [discriminate|].
  intros Hc. pose proof (lookup_lt_Some _ _ _ Hc) as Hlen.
  destruct (Z.ltb_spec (i + 1) 0); [lia|].
  rewrite Z.min_l by lia. rewrite Z.min_l by lia.
  replace (Z.to_nat (i + 1 - i)) with 1%nat by lia.
  rewrite (drop_S _ _ _ Hc). reflexivity.
Qed.

Lemma isIdentifierStart_lt_gt (f : Z -> bool) (code : Z) :
  code = 60 \/ code = 62 -> isIdentifierStart f code || (code =? 92) = false.
Proof. intros [-> | ->]; reflexivity. Qed.

(** C3. While the parser is in a type context ([inType]), [readToken]
    skips every tag branch and hands each character to the base
    [readToken]; for [<] (60) and [>] (62) that ends in
    [finishOp(tt.relational, 1)]: the token is a relational operator whose
    text is that one character and the offset moves by one. No
    [jsxTagStart] or [jsxTagEnd] token is made. *)
Theorem type_context_relational `{BaseTokenizer} (p : Parser) (code : Z) :
  inType p = true ->
  code = 60 \/ code = 62 ->
  charCodeAt (input p) (pos p) = Some code ->
  (forall c, readToken c p = super_readToken c p)
  /\ getTokenFromCode code p = finishOp tt_relational 1 p
  /\ readToken code p = finishOp tt_relational 1 p
  /\ finishOp tt_relational 1 p
     = (if isLookahead p then Some (relationalToken p)
        else super_updateContext (type p) (relationalToken p))
  /\ type (relationalToken p) = tt_relational
  /\ value (relationalToken p) = VStr [code]
  /\ pos (relationalToken p) = pos p + 1
  /\ end_ (relationalToken p) = pos p + 1.
Proof.
  intros Hin Hcode Hchar.
  assert (Hget : getTokenFromCode code p = finishOp tt_relational 1 p).
  { unfold getTokenFromCode, getTokenFromCodeInType. rewrite Hin.
    destruct Hcode as [-> | ->]; reflexivity. }
  split; [|split; [|split; [|split; [|split; [|split; [|split]]]]]].
  - intros c. unfold readToken. rewrite Hin. reflexivity.
  - exact Hget.
  - unfold readToken. rewrite Hin. simpl. unfold super_readToken.
    rewrite (isIdentifierStart_lt_gt _ _ Hcode). exact Hget.
  - unfold finishOp, finishToken, relationalToken, curPosition. simpl.
    destruct (isLookahead p); simpl; [reflexivity|].
    unfold updateContext. simpl. reflexivity.
  - reflexivity.
  - simpl. rewrite (slice_one _ _ _ Hchar). reflexivity.
  - reflexivity.
  - reflexivity.
Qed.

Lemma type_context_relational_witness :
  @readToken idleTokenizer 60 inTypeArguments
  = @finishOp idleTokenizer tt_relational 1 inTypeArguments.
Proof.
  apply (proj1 (proj2 (proj2
    (@type_context_relational idleTokenizer inTypeArguments 60
       eq_refl (or_introl eq_refl) eq_refl)))).
Defined.

(** The same character with and without the type context. *)
Example readToken_lt_in_and_out_of_type :
  (type <$> @readToken idleTokenizer 60 inTypeArguments) = Some tt_relational
  /\ (value <$> @readToken idleTokenizer 60 inTypeArguments) = Some (VStr (str "<"))
  /\ (type <$> @readToken idleTokenizer 60 inExpression) = Some tokTypes_jsxTagStart.
Proof. repeat split; vm_compute; reflexivity. Qed.

(** ** Diagnostics routing *)

(** Where no comment follows, skipping white space and comments is
    skipping white space: the automaton of [skipWhiteSpace] stops on the
    first character that is not white space when that character is not a
    slash. *)
Lemma skipWhiteSpace_no_comment (s : jsstring) :
  forall i,
    firstNonWhiteSpace s <> Some 47 ->
    i <= skipWhiteSpace_from Between s i i
    /\ s !! Z.to_nat (skipWhiteSpace_from Between s i i - i) = firstNonWhiteSpace s.
Proof.
  induction s as [|c t IH]; intros i Hslash; simpl in *.
  - split; [lia|]. reflexivity.
  - destruct (isWhiteSpaceChar c) eqn:Hws.
    + destruct (IH (i + 1) Hslash) as [Hle Hat].
      split; [lia|].
      replace (Z.to_nat (skipWhiteSpace_from Between t (i + 1) (i + 1) - i))
        with (S (Z.to_nat (skipWhiteSpace_from Between t (i + 1) (i + 1) - (i + 1))))
        by lia.
      exact Hat.
    + destruct (Z.eqb_spec c 47) as [-> | _]; [contradiction|].
      split; [lia|]. rewrite Z.sub_diag. reflexivity.
Qed.

Lemma lookaheadCharCode_no_comment (p : Parser) :
  0 <= pos p ->
  nextNonWhitespaceCharCode p <> Some 47 ->
  lookaheadCharCode p = nextNonWhitespaceCharCode p.
Proof.
  intros Hpos Hslash.
  unfold lookaheadCharCode, nextTokenStart, nextTokenStartSince,
    nextNonWhitespaceCharCode in *.
  destruct (skipWhiteSpace_no_comment (drop (Z.to_nat (pos p)) (input p)) (pos p)
              Hslash) as [Hle Hat].
  rewrite <- Hat. unfold charCodeAt.
  destruct (Z.ltb_spec
              (skipWhiteSpace_from Between (drop (Z.to_nat (pos p)) (input p))
                 (pos p) (pos p)) 0) as [Hneg|_]; [lia|].
  unfold jsstring. rewrite lookup_drop. f_equal. lia.
Qed.

(** C10 (as amended). Both overrides, [raise] and [raiseRecoverable], are
    [raiseCommonCheck] with [recoverable] true. For the message
    'Comma is not permitted after the rest element': in an ambient context,
    on a comma token, with [)] as the next character after white space and
    comments, nothing is raised and the call is the base [next] (the comma
    is consumed); if one of the three conditions fails the base [raise] is
    called. Every other message goes to the base [raiseRecoverable].  The
    character tested is the next non-whitespace character whenever that
    character does not open a comment. *)
Theorem raise_routing `{BaseParser} (pos' : Z) (message : Message) (p : Parser) :
  raise pos' message p = raiseCommonCheck pos' message true p
  /\ raiseRecoverable pos' message p = raiseCommonCheck pos' message true p
  /\ (message = CommaAfterRest ->
      isAmbientContext p = true -> type p = tt_comma ->
      lookaheadCharCode p = Some 41 ->
      raise pos' message p = next p
      /\ raiseRecoverable pos' message p = next p)
  /\ (message = CommaAfterRest ->
      isAmbientContext p = false \/ type p <> tt_comma
      \/ lookaheadCharCode p <> Some 41 ->
      raise pos' message p = super_raise pos' message p
      /\ raiseRecoverable pos' message p = super_raise pos' message p)
  /\ (message <> CommaAfterRest ->
      raise pos' message p = super_raiseRecoverable pos' message p
      /\ raiseRecoverable pos' message p = super_raiseRecoverable pos' message p)
  /\ (0 <= pos p ->
      nextNonWhitespaceCharCode p <> Some 47 ->
      lookaheadCharCode p = nextNonWhitespaceCharCode p).
Proof.
  split; [reflexivity|]. split; [reflexivity|].
  unfold raise, raiseRecoverable, raiseCommonCheck, match_.
  split; [|split; [|split]].
  - intros -> Ha Ht Hl. rewrite decide_True by reflexivity.
    rewrite Ha, (bool_decide_eq_true_2 _ Ht), (bool_decide_eq_true_2 _ Hl).
    split; reflexivity.
  - intros -> Hor. rewrite decide_True by reflexivity.
    assert (Hc : isAmbientContext p && bool_decide (type p = tt_comma)
                 && bool_decide (lookaheadCharCode p = Some 41) = false).
    { destruct Hor as [Ha | [Ht | Hl]].
      - rewrite Ha. reflexivity.
      - rewrite (bool_decide_eq_false_2 _ Ht). apply andb_false_intro1, andb_false_r.
      - rewrite (bool_decide_eq_false_2 _ Hl). apply andb_false_r. }
    rewrite Hc. split; reflexivity.
  - intros Hne. rewrite decide_False by exact Hne. split; reflexivity.
  - exact (lookaheadCharCode_no_comment p).
Qed.

Lemma raise_routing_witness :
  @raise throwingParser 23 CommaAfterRest onTrailingComma
  = @next throwingParser onTrailingComma.
Proof.
  apply (proj1 (proj2 (proj2
    (@raise_routing throwingParser 23 CommaAfterRest onTrailingComma))));
    reflexivity.
Defined.

(** The claim as stated fails when a comment stands between the comma and
    the closing parenthesis: the next non-whitespace character is the
    slash that opens the comment, not [)], and yet nothing is raised and
    the comma is consumed, because [lookaheadCharCode] looks past comments
    as well. *)
Lemma comma_before_comment_is_consumed :
  ~ (forall (B : BaseParser) (pos' : Z) (p : Parser),
       isAmbientContext p = false \/ type p <> tt_comma
       \/ nextNonWhitespaceCharCode p <> Some 41 ->
       @raise B pos' CommaAfterRest p = @super_raise B pos' CommaAfterRest p).
Proof.
  intros Hclaim.
  specialize (Hclaim throwingParser 23 onCommaBeforeComment).
  assert (Hnext : nextNonWhitespaceCharCode onCommaBeforeComment = Some 47)
    by reflexivity.
  assert (Hrun : @raise throwingParser 23 CommaAfterRest onCommaBeforeComment
                 = Normal tt (stepOneChar onCommaBeforeComment))
    by (vm_compute; reflexivity).
  rewrite Hrun in Hclaim.
  assert (Hhard : @super_raise throwingParser 23 CommaAfterRest onCommaBeforeComment
                  = Throw (mkSyntaxError 23 CommaAfterRest) onCommaBeforeComment)
    by reflexivity.
  rewrite Hhard in Hclaim.
  assert (Hcond : isAmbientContext onCommaBeforeComment = false
                  \/ type onCommaBeforeComment <> tt_comma
                  \/ nextNonWhitespaceCharCode onCommaBeforeComment <> Some 41).
  { right. right. rewrite Hnext. discriminate. }
  specialize (Hclaim Hcond). discriminate Hclaim.
Qed.

Example raise_routing_cases :
  lookaheadCharCode onTrailingComma = Some 41
  /\ @raise throwingParser 23 CommaAfterRest onTrailingComma
     = Normal tt (stepOneChar onTrailingComma)
  /\ @raise throwingParser 23 CommaAfterRest
       (set_isAmbientContext false onTrailingComma)
     = Throw (mkSyntaxError 23 CommaAfterRest)
         (set_isAmbientContext false onTrailingComma)
  /\ @raise throwingParser 4 (Template OptionalTypeBeforeRequired) onTrailingComma
     = Throw (mkSyntaxError 4 (Template OptionalTypeBeforeRequired)) onTrailingComma.
Proof. repeat split; vm_compute; reflexivity. Qed.

Example nextTokenStart_comment :
  skipWhiteSpace_from Between (str " /* a */ // b") 0 0 = 13
  /\ skipWhiteSpace_from Between (str "  /* open )") 0 0 = 2
  /\ skipWhiteSpace_from Between (str "/*/ )") 0 0 = 0
  /\ skipWhiteSpace_from Between (drop 3 (str "a,  )")) 3 3 = 4.
Proof. repeat split; reflexivity. Qed.

(** ** Node spans *)

Lemma finishNode_finished (p : Parser) (n : Node) (t : string) :
  node_type n <> "" -> node_end n <> 0 -> finishNode p n t = n.
Proof.
  intros Ht He. unfold finishNode.
  rewrite (bool_decide_eq_true_2 _ Ht), (bool_decide_eq_true_2 _ He).
  reflexivity.
Qed.

Lemma finishNode_fresh (p : Parser) (n : Node) (t : string) :
  node_type n = "" \/ node_end n = 0 -> finishNode p n t = super_finishNode p n t.
Proof.
  intros Hor. unfold finishNode.
  destruct Hor as [Ht | He].
  - rewrite bool_decide_eq_false_2 by (intros Hn; exact (Hn Ht)). reflexivity.
  - rewrite (bool_decide_eq_false_2 (node_end n <> 0)) by (intros Hn; exact (Hn He)).
    rewrite andb_false_r. reflexivity.
Qed.

(** C9. A node whose type tag is non-empty and whose end is nonzero comes
    back from [finishNode] unchanged, whatever the parser state and the
    type asked for. So once a node has been finished with a non-empty type
    at a nonzero token end, every later [finishNode] leaves it as it is;
    its span moves only through [resetStartLocation] and
    [resetEndLocation], which overwrite [start] and [end] and keep the
    type tag. *)
Theorem finishNode_fixes_span (p p' : Parser) (n : Node) (t t' : string) :
  (node_type n <> "" -> node_end n <> 0 -> finishNode p n t = n)
  /\ (t <> "" -> lastTokEnd p <> 0 ->
      finishNode p' (finishNode p n t) t' = finishNode p n t)
  /\ (forall start' startLoc',
        node_start (resetStartLocation p n start' startLoc') = start'
        /\ loc_start (node_loc (resetStartLocation p n start' startLoc')) = startLoc'
        /\ node_type (resetStartLocation p n start' startLoc') = node_type n
        /\ node_end (resetStartLocation p n start' startLoc') = node_end n)
  /\ (forall endLoc',
        node_end (resetEndLocation p n (Some endLoc')) = index endLoc'
        /\ loc_end (node_loc (resetEndLocation p n (Some endLoc'))) = Some endLoc'
        /\ node_type (resetEndLocation p n (Some endLoc')) = node_type n
        /\ node_start (resetEndLocation p n (Some endLoc')) = node_start n).
Proof.
  split; [apply finishNode_finished|]. split; [|split].
  - intros Ht He.
    destruct (decide (node_type n <> "" /\ node_end n <> 0)) as [[H1 H2] | Hnot].
    + rewrite (finishNode_finished p n t H1 H2).
      apply finishNode_finished; assumption.
    + rewrite (finishNode_fresh p n t).
      * apply finishNode_finished; simpl; assumption.
      * destruct (decide (node_type n = "")) as [|Hty]; [left; assumption|].
        destruct (decide (node_end n = 0)) as [|Hen]; [right; assumption|].
        exfalso. apply Hnot. split; assumption.
  - intros; repeat split; reflexivity.
  - intros; repeat split; reflexivity.
Qed.

Lemma finishNode_fixes_span_witness :
  finishNode (initialParser (str "x")) identifier_x "TSTypeReference" = identifier_x.
Proof.
  apply (proj1 (finishNode_fixes_span (initialParser (str "x"))
                  (initialParser (str "x")) identifier_x
                  "TSTypeReference" "TSTypeReference")).
  - discriminate.
  - discriminate.
Defined.

(** ** Postfix non-null assertion *)

(** C8. In [parseSubscript], on a prefix token [!] that no line break
    separates from the preceding expression, the token is consumed ([next],
    after [exprAllowed] is cleared) and the result is a
    [TSNonNullExpression] node that starts at [startPos]/[startLoc], ends
    where the [!] ended and has [base] as its [expression]. With a line
    break before the [!] the branch is not taken: the function returns
    [base] and consumes nothing. *)
Theorem parseSubscript_nonNull `{BaseParser} `{BaseExpressions}
    (base : Node) (startPos : Z) (startLoc' : Position)
    (noCalls maybeAsyncArrow optionalChained forInit : bool) (p : Parser) :
  value p = VStr (str "!") ->
  type p = tt_prefix ->
  (hasPrecedingLineBreak p = false ->
   forall p1, next (set_exprAllowed false p) = Normal tt p1 ->
     parseSubscript base startPos startLoc' noCalls maybeAsyncArrow
       optionalChained forInit p
     = Normal
         {| node_type := "TSNonNullExpression";
            node_start := startPos;
            node_end := lastTokEnd p1;
            node_loc :=
              if locations (options p1)
              then mkSourceLocation startLoc' (Some (lastTokEndLoc p1))
              else mkSourceLocation startLoc' None;
            node_range :=
              if ranges (options p1) then Some (startPos, lastTokEnd p1) else None;
            node_props := [("expression", base)] |}
         p1)
  /\ (hasPrecedingLineBreak p = true ->
      parseSubscript base startPos startLoc' noCalls maybeAsyncArrow
        optionalChained forInit p
      = Normal base p).
Proof.
  intros Hv Ht. unfold parseSubscript, tsMatchLeftRelational, match_.
  rewrite (bool_decide_eq_true_2 _ Hv). rewrite Ht. split.
  - intros Hlb p1 Hnext. rewrite Hlb, Hnext. simpl.
    unfold finishNode, super_finishNode, startNodeAt. simpl.
    destruct (ranges (options p1)), (locations (options p1)); reflexivity.
  - intros Hlb. rewrite Hlb. simpl. rewrite !andb_false_r. simpl.
    destruct noCalls; reflexivity.
Qed.

Lemma parseSubscript_nonNull_witness :
  @parseSubscript throwingParser noExpressions identifier_x 0 (mkPosition 1 0 0)
    false false false false onBang
  = Normal
      {| node_type := "TSNonNullExpression";
         node_start := 0;
         node_end := 2;
         node_loc := mkSourceLocation (mkPosition 1 0 0) (Some (mkPosition 1 2 2));
         node_range := None;
         node_props := [("expression"%string, identifier_x)] |}
      (stepOneChar (set_exprAllowed false onBang)).
Proof.
  exact (proj1 (@parseSubscript_nonNull throwingParser noExpressions identifier_x 0
                  (mkPosition 1 0 0) false false false false onBang
                  eq_refl eq_refl)
           eq_refl (stepOneChar (set_exprAllowed false onBang)) eq_refl).
Defined.

Example parseSubscript_bang_after_newline :
  hasPrecedingLineBreak onBang = false
  /\ hasPrecedingLineBreak onBangAfterNewline = true
  /\ @parseSubscript throwingParser noExpressions identifier_x 0
       (mkPosition 1 0 0) false false false false onBangAfterNewline
     = Normal identifier_x onBangAfterNewline.
Proof. repeat split; vm_compute; reflexivity. Qed.

(** ** Tuple element validation *)

Section TupleElementFacts.
Variable e : TupleElement.
Hypothesis e_tagged : wellTagged e.

Lemma rest_choice :
  (if bool_decide (element_type e = "TSRestType")
   then element_typeAnnotation e else Some e) = Some (labelCarrier e).
Proof.
  destruct e as [s a|s|s o|t s]; simpl; try reflexivity.
  case_bool_decide as Ht; [|reflexivity].
  destruct (e_tagged Ht) as [x Hx]. discriminate Hx.
Qed.

Lemma required_guard :
  bool_decide (element_type e <> "TSRestType")
  && bool_decide (element_type e <> "TSOptionalType")
  && negb (bool_decide (element_type e = "TSNamedTupleMember")
           && element_optional e)
  = isRequiredElement e.
Proof.
  unfold isRequiredElement, isRestElement, isOptionalElement.
  repeat case_bool_decide; destruct (element_optional e);
    simpl; try reflexivity; congruence.
Qed.

Lemma optional_guard :
  (bool_decide (element_type e = "TSNamedTupleMember") && element_optional e)
  || bool_decide (element_type e = "TSOptionalType")
  = isOptionalElement e.
Proof. unfold isOptionalElement. apply orb_comm. Qed.
End TupleElementFacts.

(** One element under the collecting reporter. *)
Lemma tupleElementCheck_recording (seen : bool) (lab : option bool)
    (e : TupleElement) (log : list SyntaxError) :
  wellTagged e ->
  tupleElementCheck recordingRaise seen lab e log
  = Normal (seen || isOptionalElement e, Some (default (isLabeledElement e) lab))
      (log ++ (if seen && isRequiredElement e then [optionalBeforeRequired e] else [])
           ++ (if negb (eqb (default (isLabeledElement e) lab) (isLabeledElement e))
               then [mixedLabels e] else [])).
Proof.
  intros Hw. unfold tupleElementCheck.
  rewrite <- !andb_assoc. rewrite (andb_assoc (bool_decide _) (bool_decide _)).
  rewrite (required_guard e), (optional_guard e), (rest_choice e Hw).
  fold (isLabeledElement e).
  destruct (seen && isRequiredElement e); simpl;
    destruct (negb (eqb (default (isLabeledElement e) lab) (isLabeledElement e)));
    simpl; unfold recordingRaise; simpl;
    rewrite ?app_nil_r, <- ?app_assoc; reflexivity.
Qed.

(** One element under the throwing reporter: the first diagnostic the
    element calls for is thrown. *)
Lemma tupleElementCheck_throwing (seen : bool) (lab : option bool)
    (e : TupleElement) :
  wellTagged e ->
  tupleElementCheck throwingRaise seen lab e tt
  = match (if seen && isRequiredElement e then [optionalBeforeRequired e] else [])
          ++ (if negb (eqb (default (isLabeledElement e) lab) (isLabeledElement e))
              then [mixedLabels e] else []) with
    | [] => Normal (seen || isOptionalElement e,
                    Some (default (isLabeledElement e) lab)) tt
    | d :: _ => Throw d tt
    end.
Proof.
  intros Hw. unfold tupleElementCheck.
  rewrite <- !andb_assoc. rewrite (andb_assoc (bool_decide _) (bool_decide _)).
  rewrite (required_guard e), (optional_guard e), (rest_choice e Hw).
  fold (isLabeledElement e).
  destruct (seen && isRequiredElement e); simpl; [reflexivity|].
  destruct (negb (eqb (default (isLabeledElement e) lab) (isLabeledElement e)));
    reflexivity.
Qed.

Lemma tupleElementsCheck_recording (elems : list TupleElement) :
  Forall wellTagged elems ->
  forall seen lab log,
    tupleElementsCheck recordingRaise elems seen lab log
    = Normal tt (log ++ tupleDiagnostics elems seen lab).
Proof.
  induction 1 as [|e rest He Hrest IH]; intros seen lab log; simpl.
  - rewrite app_nil_r. reflexivity.
  - rewrite (tupleElementCheck_recording seen lab e log He). simpl.
    rewrite IH. rewrite <- !app_assoc. reflexivity.
Qed.

Lemma tupleElementsCheck_throwing (elems : list TupleElement) :
  Forall wellTagged elems ->
  forall seen lab,
    tupleElementsCheck throwingRaise elems seen lab tt
    = match tupleDiagnostics elems seen lab with
      | [] => Normal tt tt
      | d :: _ => Throw d tt
      end.
Proof.
  induction 1 as [|e rest He Hrest IH]; intros seen lab; simpl.
  - reflexivity.
  - rewrite (tupleElementCheck_throwing seen lab e He).
    destruct (seen && isRequiredElement e); simpl; [reflexivity|].
    destruct (negb (eqb (default (isLabeledElement e) lab) (isLabeledElement e)));
      simpl; [reflexivity|].
    apply IH.
Qed.

Lemma tupleDiagnostics_required (elems : list TupleElement) :
  forall seen lab (i : nat) e,
    elems !! i = Some e ->
    isRequiredElement e = true ->
    (seen = true
     \/ exists (j : nat) e', (j < i)%nat /\ elems !! j = Some e'
                             /\ isOptionalElement e' = true) ->
    optionalBeforeRequired e ∈ tupleDiagnostics elems seen lab.
Proof.
  induction elems as [|e0 rest IH]; intros seen lab i e Hi Hreq Hseen.
  - discriminate Hi.
  - destruct i as [|i]; simpl in Hi.
    + injection Hi as ->. simpl.
      destruct Hseen as [-> | (j & e' & Hj & _)]; [|lia].
      rewrite Hreq. simpl. apply list_elem_of_here.
    + simpl. rewrite !elem_of_app. right. right.
      apply (IH _ _ i e Hi Hreq).
      destruct Hseen as [-> | (j & e' & Hj & He' & Hopt)]; [left; reflexivity|].
      destruct j as [|j]; simpl in He'.
      * injection He' as ->. left. rewrite Hopt. apply orb_true_r.
      * right. exists j, e'. repeat split; [lia | assumption | assumption].
Qed.

Lemma tupleDiagnostics_mixed_from (elems : list TupleElement) :
  forall seen (b : bool) (i : nat) e,
    elems !! i = Some e ->
    isLabeledElement e <> b ->
    mixedLabels e ∈ tupleDiagnostics elems seen (Some b).
Proof.
  induction elems as [|e0 rest IH]; intros seen b i e Hi Hne.
  - discriminate Hi.
  - destruct i as [|i]; simpl in Hi.
    + injection Hi as ->. simpl. rewrite elem_of_app. right.
      rewrite elem_of_app. left.
      destruct b, (isLabeledElement e); simpl; try congruence;
        apply list_elem_of_here.
    + simpl. rewrite !elem_of_app. right. right.
      exact (IH _ b i e Hi Hne).
Qed.

Lemma tupleDiagnostics_mixed (elems : list TupleElement) (i : nat)
    (e e0 : TupleElement) :
  elems !! 0%nat = Some e0 ->
  elems !! i = Some e ->
  isLabeledElement e <> isLabeledElement e0 ->
  mixedLabels e ∈ tupleDiagnostics elems false None.
Proof.
  intros H0 Hi Hne. destruct elems as [|x rest]; [discriminate H0|].
  simpl in H0. injection H0 as ->.
  destruct i as [|i]; simpl in Hi.
  - injection Hi as ->. congruence.
  - change (tupleDiagnostics (e0 :: rest) false None)
      with ([] ++ (if negb (eqb (isLabeledElement e0) (isLabeledElement e0))
                   then [mixedLabels e0] else [])
               ++ tupleDiagnostics rest (false || isOptionalElement e0)
                    (Some (isLabeledElement e0))).
    rewrite !elem_of_app. right. right.
    exact (tupleDiagnostics_mixed_from rest _ _ i e Hi Hne).
Qed.

Lemma tupleDiagnostics_clean (elems : list TupleElement) :
  forall seen lab,
    (seen = true -> forall e, e ∈ elems -> isRequiredElement e = false) ->
    (forall (i j : nat) e e',
       (j < i)%nat -> elems !! j = Some e' -> isOptionalElement e' = true ->
       elems !! i = Some e -> isRequiredElement e = false) ->
    (forall b, lab = Some b -> forall e, e ∈ elems -> isLabeledElement e = b) ->
    (forall e e', e ∈ elems -> e' ∈ elems ->
       isLabeledElement e = isLabeledElement e') ->
    tupleDiagnostics elems seen lab = [].
Proof.
  induction elems as [|e0 rest IH]; intros seen lab Hseen Hord Hlab Hsame.
  - reflexivity.
  - simpl.
    assert (H1 : seen && isRequiredElement e0 = false).
    { destruct seen; [|reflexivity]. simpl.
      apply Hseen; [reflexivity | apply list_elem_of_here]. }
    assert (H2 : default (isLabeledElement e0) lab = isLabeledElement e0).
    { destruct lab as [b|]; [|reflexivity]. simpl. symmetry.
      apply (Hlab b eq_refl). apply list_elem_of_here. }
    rewrite H1, H2, eqb_reflx. simpl.
    apply IH.
    + intros Hs e He. apply orb_true_iff in Hs as [-> | Hopt].
      * apply Hseen; [reflexivity | apply list_elem_of_further; exact He].
      * apply list_elem_of_lookup in He as [i Hi].
        apply (Hord (S i) 0%nat e e0); [lia | reflexivity | exact Hopt | exact Hi].
    + intros i j e e' Hlt Hj Hopt Hi.
      apply (Hord (S i) (S j) e e'); [lia | exact Hj | exact Hopt | exact Hi].
    + intros b Hb e He. injection Hb as <-.
      apply Hsame; [apply list_elem_of_further; exact He | apply list_elem_of_here].
    + intros e e' He He'.
      apply Hsame; apply list_elem_of_further; assumption.
Qed.

(** C7. Once the element list of a tuple type is parsed, the validation
    of [tsParseTupleType] calls [raise] as follows (under a reporter that
    returns, these are the diagnostics collected; under one that throws,
    the first of them is thrown): for every element that is neither rest
    nor optional and comes after an optional element, the
    optional-before-required error at that element; for every element
    whose labeledness (that of its argument, for a rest element) differs
    from the first element's, the mixed-labels error; so any tuple mixing
    labeled and unlabeled members gets that error. A tuple in which no
    required element follows an optional one and all members agree on
    being labeled gets no diagnostic; [[string, number?]] is one. *)
Theorem tuple_validation (elems : list TupleElement) :
  Forall wellTagged elems ->
  exists log,
    tsParseTupleType_validate recordingRaise elems [] = Normal tt log
    /\ tsParseTupleType_validate throwingRaise elems tt
       = match log with [] => Normal tt tt | d :: _ => Throw d tt end
    /\ (forall (i : nat) e,
          elems !! i = Some e -> isRequiredElement e = true ->
          (exists (j : nat) e', (j < i)%nat /\ elems !! j = Some e'
                                /\ isOptionalElement e' = true) ->
          optionalBeforeRequired e ∈ log)
    /\ (forall (i : nat) e e0,
          elems !! 0%nat = Some e0 -> elems !! i = Some e ->
          isLabeledElement e <> isLabeledElement e0 ->
          mixedLabels e ∈ log)
    /\ (forall (i j : nat) e e',
          elems !! i = Some e -> elems !! j = Some e' ->
          isLabeledElement e <> isLabeledElement e' ->
          exists x, x ∈ elems /\ mixedLabels x ∈ log)
    /\ ((forall (i j : nat) e e',
           (j < i)%nat -> elems !! j = Some e' -> isOptionalElement e' = true ->
           elems !! i = Some e -> isRequiredElement e = false) ->
        (forall e e', e ∈ elems -> e' ∈ elems ->
           isLabeledElement e = isLabeledElement e') ->
        log = [])
    /\ (forall (S : Type) (raise : Z -> Message -> S -> Completion unit S) (s : S),
          tsParseTupleType_validate raise tuple_string_optionalNumber s
          = Normal tt s).
Proof.
  intros Hw. exists (tupleDiagnostics elems false None).
  split; [|split; [|split; [|split; [|split; [|split]]]]].
  - unfold tsParseTupleType_validate.
    rewrite (tupleElementsCheck_recording elems Hw). reflexivity.
  - unfold tsParseTupleType_validate.
    apply (tupleElementsCheck_throwing elems Hw).
  - intros i e Hi Hreq Hopt.
    apply (tupleDiagnostics_required elems false None i e Hi Hreq). right. exact Hopt.
  - intros i e e0. apply tupleDiagnostics_mixed.
  - intros i j e e' Hi Hj Hne.
    destruct (elems !! 0%nat) as [e0|] eqn:H0.
    + destruct (decide (isLabeledElement e = isLabeledElement e0)) as [Heq|Hd].
      * exists e'. split; [apply (list_elem_of_lookup_2 _ _ _ Hj)|].
        apply (tupleDiagnostics_mixed elems j e' e0 H0 Hj). congruence.
      * exists e. split; [apply (list_elem_of_lookup_2 _ _ _ Hi)|].
        apply (tupleDiagnostics_mixed elems i e e0 H0 Hi Hd).
    + destruct elems; [discriminate Hi | discriminate H0].
  - intros Hord Hsame. apply tupleDiagnostics_clean.
    + discriminate.
    + exact Hord.
    + discriminate.
    + exact Hsame.
  - intros S raise s. reflexivity.
Qed.

Lemma tuple_optionalNumber_string_tagged : Forall wellTagged tuple_optionalNumber_string.
Proof. repeat constructor; intros Ht; discriminate Ht. Qed.

Lemma tuple_validation_witness :
  exists log,
    tsParseTupleType_validate recordingRaise tuple_optionalNumber_string [] = Normal tt log
    /\ tsParseTupleType_validate throwingRaise tuple_optionalNumber_string tt
       = match log with [] => Normal tt tt | d :: _ => Throw d tt end.
Proof.
  destruct (tuple_validation tuple_optionalNumber_string
              tuple_optionalNumber_string_tagged) as (log & Hrec & Hthrow & _).
  exists log. split; assumption.
Defined.

Example tuple_examples :
  tsParseTupleType_validate throwingRaise tuple_string_optionalNumber tt
  = Normal tt tt
  /\ tsParseTupleType_validate throwingRaise tuple_optionalNumber_string tt
     = Throw (mkSyntaxError 10 (Template OptionalTypeBeforeRequired)) tt
  /\ tsParseTupleType_validate throwingRaise tuple_named_unnamed tt
     = Throw (mkSyntaxError 12 (Template MixedLabeledAndUnlabeledElements)) tt
  /\ tsParseTupleType_validate recordingRaise
       [TSNamedTupleMember 1 true; TSType "TSNumberKeyword" 13;
        TSRestType 21 (TSNamedTupleMember 24 false)] []
     = Normal tt [mkSyntaxError 13 (Template OptionalTypeBeforeRequired);
                  mkSyntaxError 13 (Template MixedLabeledAndUnlabeledElements)].
Proof. repeat split; reflexivity. Qed.

(** ** Ambient variable statements *)

(** C4, at the inputs of the scenario. [declare let x = 1] and
    [declare const x: number = 1] raise the ambient-initializer error at
    the initializer. [declare const X = "a"] is rejected as well, with the
    constant-initializer error: the initializer acorn builds is a [Literal]
    node and the check admits the tags [StringLiteral], [NumericLiteral],
    [BooleanLiteral] and [BigIntLiteral], which acorn never produces; the
    same holds of every unannotated [const] declarator initialized to a
    [Literal]. An enum member reference is admitted, and so would a node
    tagged [StringLiteral] be. *)
Theorem parseVarStatement_ambient_literal :
  parseVarStatement_check throwingRaise true "const" declare_const_X_a tt
  = Throw (mkSyntaxError 18
             (Template ConstInitiailizerMustBeStringOrNumericLiteralOrLiteralEnumReference))
      tt
  /\ parseVarStatement_check throwingRaise true "let" declare_let_x_1 tt
     = Throw (mkSyntaxError 16 (Template InitializerNotAllowedInAmbientContext)) tt
  /\ parseVarStatement_check throwingRaise true "const" declare_const_x_number_1 tt
     = Throw (mkSyntaxError 26 (Template InitializerNotAllowedInAmbientContext)) tt
  /\ (forall name start' rest,
        parseVarStatement_check throwingRaise true "const"
          (mkVariableDeclarator (mkBindingIdentifier name None)
             (Some (Expr "Literal" start')) :: rest) tt
        = Throw (mkSyntaxError start'
                   (Template ConstInitiailizerMustBeStringOrNumericLiteralOrLiteralEnumReference))
            tt)
  /\ parseVarStatement_check throwingRaise true "const" declare_const_X_enum tt
     = Normal tt tt
  /\ parseVarStatement_check throwingRaise true "const"
       [mkVariableDeclarator (mkBindingIdentifier "X" None)
          (Some (Expr "StringLiteral" 18))] tt
     = Normal tt tt
  /\ parseVarStatement_check throwingRaise false "const" declare_const_X_a tt
     = Normal tt tt.
Proof. repeat split; reflexivity. Qed.

(** What holds of the ambient check for every declarator list: a
    declarator with an initializer raises the ambient-initializer error
    when the kind is not [const] or the binding is annotated. *)
Lemma ambientDeclaratorCheck_not_allowed (kind : string) (d : VariableDeclarator)
    (init' : Expression) :
  init d = Some init' ->
  kind <> "const" \/ is_Some (typeAnnotation (id d)) ->
  ambientDeclaratorCheck throwingRaise kind d tt
  = Throw (mkSyntaxError (expression_start init')
             (Template InitializerNotAllowedInAmbientContext)) tt.
Proof.
  intros Hi Hor. unfold ambientDeclaratorCheck. rewrite Hi.
  assert (Hc : bool_decide (kind <> "const")
               || bool_decide (is_Some (typeAnnotation (id d))) = true).
  { destruct Hor as [Hk | Ha].
    - rewrite (bool_decide_eq_true_2 _ Hk). reflexivity.
    - rewrite (bool_decide_eq_true_2 _ Ha). apply orb_true_r. }
  rewrite Hc. reflexivity.
Qed.

(** ** Scope bindings *)

Lemma hasFlag_zero (a : Z) : hasFlag a 0 = false.
Proof. unfold hasFlag. rewrite Z.land_0_r. reflexivity. Qed.

(** C5, on the code. [BIND_KIND_TYPE] is 0, so the test
    [bindingType & BIND_KIND_TYPE] never holds: the block that checks a
    type binding for redeclaration and pushes the name onto [scope.types]
    does nothing, for every binding type. A declaration that is neither an
    import nor export-only is the base [declareName] followed by the
    enum/const-enum/class pushes. Declaring the type alias [T] twice at the
    top level ([BIND_TS_TYPE], as [tsParseTypeAliasDeclaration] does)
    raises nothing and leaves [types] empty. *)
Theorem declareName_type_not_recorded :
  (forall (B : BaseScopes) name bindingType pos' st,
     declareName_type name bindingType pos' st = Normal tt st)
  /\ (forall (B : BaseScopes) name bindingType pos' st,
        hasFlag bindingType BIND_FLAGS_TS_IMPORT = false ->
        hasFlag bindingType BIND_FLAGS_TS_EXPORT_ONLY = false ->
        declareName name bindingType pos' st
        = andThen (super_declareName name bindingType pos' st)
            (fun _ st => declareName_flags name bindingType st))
  /\ (exists st1 st2,
        @declareName varStyleScopes "T" BIND_TS_TYPE 5 topLevel = Normal tt st1
        /\ @declareName varStyleScopes "T" BIND_TS_TYPE 20 st1 = Normal tt st2
        /\ (types <$> currentScope st1) = Some []
        /\ (types <$> currentScope st2) = Some []).
Proof.
  split; [|split].
  - intros B name bindingType pos' st. unfold declareName_type.
    unfold BIND_KIND_TYPE. rewrite hasFlag_zero. reflexivity.
  - intros B name bindingType pos' st Hi He. unfold declareName.
    rewrite Hi, He.
    destruct (super_declareName name bindingType pos' st) as [[] st'|e st'|w st'];
      simpl; try reflexivity.
    unfold declareName_type, BIND_KIND_TYPE. rewrite hasFlag_zero. reflexivity.
  - eexists _, _. repeat split; reflexivity.
Qed.

Lemma declareName_type_not_recorded_witness :
  @declareName varStyleScopes "T" BIND_TS_TYPE 5 topLevel
  = andThen (@super_declareName varStyleScopes "T" BIND_TS_TYPE 5 topLevel)
      (fun _ st => declareName_flags "T" BIND_TS_TYPE st).
Proof.
  apply (proj1 (proj2 declareName_type_not_recorded) varStyleScopes);
    reflexivity.
Defined.

(** Had the constant been a flag that [BIND_TS_TYPE] carries, the block
    would have run; with the source's constants no binding type reaches
    it. *)
Example no_binding_type_reaches_the_type_block :
  hasFlag BIND_TS_TYPE BIND_KIND_TYPE = false
  /\ hasFlag BIND_TS_INTERFACE BIND_KIND_TYPE = false
  /\ hasFlag BIND_TS_NAMESPACE BIND_KIND_TYPE = false.
Proof. repeat split; reflexivity. Qed.

(** ** Modifier lists *)

Lemma recordingRaise_andThen {A : Type} (pos' : Z) (message : Message)
    (log : list SyntaxError)
    (k : unit -> list SyntaxError -> Completion A (list SyntaxError)) :
  andThen (recordingRaise pos' message log) k
  = k tt (log ++ [mkSyntaxError pos' message]).
Proof. reflexivity. Qed.









(** *** The two reporters *)













Example modifier_examples_throwing :
  (exists r, @tsParseModifiers _ wordClasses throwingRaise classMemberModifiers ∅
               abstract_override_x tt = Normal r tt)
  /\ @tsParseModifiers _ wordClasses throwingRaise classMemberModifiers ∅
       static_public_readonly_x tt
     = Throw (mkSyntaxError 7 (Template (InvalidModifiersOrder "public" "static"))) tt
  /\ (exists r, @tsParseModifiers _ wordClasses recordingRaise classMemberModifiers ∅
                  accessor_readonly_x [] = Normal r [])
  /\ (exists r, @tsParseModifiers _ wordClasses recordingRaise classMemberModifiers ∅
                  readonly_accessor_x []
                = Normal r [mkSyntaxError 9
                              (Template (IncompatibleModifiers "accessor" "readonly"))]).
Proof.
  repeat split; try (eexists; vm_compute; reflexivity); vm_compute; reflexivity.
Qed.

(** Where the ordering and incompatibility errors are reported.
    [enforceOrder] and [incompatible] hand [loc.column] to [raise], which
    takes an offset.  On the first line of the source the two are the same
    number; on a later line the error is reported at the column, which is
    not where the modifier is: with the modifiers on the second line,
    [public] starts at offset 8 and the error is reported at 7. *)
Example modifier_error_position :
  (exists r,
     @tsParseModifiers _ wordClasses recordingRaise classMemberModifiers ∅
       static_public_readonly_x []
     = Normal r [mkSyntaxError 7
                   (Template (InvalidModifiersOrder "public" "static"))])
  /\ (tok_start <$> static_public_readonly_x !! 1%nat) = Some 7
  /\ (exists r,
        @tsParseModifiers _ wordClasses recordingRaise classMemberModifiers ∅
          newline_static_public_x []
        = Normal r [mkSyntaxError 7
                      (Template (InvalidModifiersOrder "public" "static"))])
  /\ (tok_start <$> newline_static_public_x !! 1%nat) = Some 8.
Proof.
  split; [eexists; vm_compute; reflexivity|].
  split; [reflexivity|].
  split; [eexists; vm_compute; reflexivity|].
  reflexivity.
Qed.

(** * Further properties *)

(** ** Line breaks and comments *)

Lemma isNewLine_charCodeAt_nonneg (code : jsstring) (k : Z) :
  isNewLine (charCodeAt code k) = true -> 0 <= k.
Proof.
  unfold charCodeAt. destruct (Z.ltb_spec k 0); [discriminate | lia].
Qed.

Lemma nextLineBreak_loop_spec (code : jsstring) (end' : Z) (n : nat) :
  forall i, Z.of_nat n = end' - i ->
    let r := nextLineBreak_loop code end' n i in
    (r = -1 /\ forall k, i <= k < end' -> isNewLine (charCodeAt code k) = false)
    \/ (exists k, i <= k < end'
          /\ isNewLine (charCodeAt code k) = true
          /\ (forall j, i <= j < k -> isNewLine (charCodeAt code j) = false)
          /\ ((r = k + 2 /\ k + 2 <= end' /\ charCodeAt code k = Some 13
               /\ charCodeAt code (k + 1) = Some 10)
              \/ (r = k + 1
                  /\ ~ (k + 2 <= end' /\ charCodeAt code k = Some 13
                        /\ charCodeAt code (k + 1) = Some 10)))).
Proof.
  induction n as [|n IH]; intros i Hn; simpl.
  - left. split; [reflexivity|]. intros k Hk. lia.
  - destruct (isNewLine (charCodeAt code i)) eqn:Hnl.
    + right. exists i. split; [lia|]. split; [exact Hnl|].
      split; [intros j Hj; lia|].
      destruct (Z.ltb_spec i (end' - 1)) as [Hlt|Hge]; simpl.
      * repeat case_bool_decide; simpl.
        -- left. repeat split; [lia | assumption | assumption].
        -- right. split; [reflexivity|]. intros (_ & _ & Hc). contradiction.
        -- right. split; [reflexivity|]. intros (_ & Hc & _). contradiction.
        -- right. split; [reflexivity|]. intros (_ & Hc & _). contradiction.
      * right. split; [reflexivity|]. intros (Hc & _). lia.
    + specialize (IH (i + 1) ltac:(lia)). simpl in IH.
      destruct IH as [[Hr Hall] | (k & Hk & Hnk & Hbefore & Hres)].
      * left. split; [exact Hr|]. intros k Hk.
        destruct (decide (k = i)) as [->|Hne]; [exact Hnl|]. apply Hall. lia.
      * right. exists k. split; [lia|]. split; [exact Hnk|].
        split; [|exact Hres].
        intros j Hj. destruct (decide (j = i)) as [->|Hne]; [exact Hnl|].
        apply Hbefore. lia.
Qed.


Example nextLineBreak_examples :
  nextLineBreak (str "a/*b*/") 0 6 = -1
  /\ nextLineBreak [97; 13; 10; 98] 0 4 = 3
  /\ nextLineBreak [97; 13; 10; 98] 0 2 = 2
  /\ nextLineBreak [97; 10; 10] 2 3 = 3
  /\ nextLineBreak [97; 10] 0 9 = 2.
Proof. repeat split; reflexivity. Qed.

Lemma lineCommentEnd_spec (code : jsstring) (n : nat) :
  forall i, Z.of_nat n = Z.max 0 (Z.of_nat (length code) - i) ->
    let r := lineCommentEnd code n i in
    i <= r
    /\ (Z.of_nat (length code) <= r \/ isNewLine (charCodeAt code r) = true)
    /\ (forall k, i <= k < r -> isNewLine (charCodeAt code k) = false).
Proof.
  induction n as [|n IH]; intros i Hn; simpl.
  - split; [lia|]. split; [left; lia|]. intros k Hk; lia.
  - destruct (isNewLine (charCodeAt code i)) eqn:Hnl.
    + split; [lia|]. split; [right; exact Hnl|]. intros k Hk; lia.
    + specialize (IH (i + 1) ltac:(lia)). simpl in IH.
      destruct IH as (Hle & Hend & Hbefore).
      split; [lia|]. split; [exact Hend|].
      intros k Hk. destruct (decide (k = i)) as [->|Hne]; [exact Hnl|].
      apply Hbefore. lia.
Qed.

(** X2. [skipLineComment(startSkip)], in look-ahead mode or without an
    [onComment] callback, only moves the offset: it ends at the first line
    break at or after [pos + startSkip], or at the end of the input when
    the line has none; no character it passes is a line break, and the line
    counter is untouched. *)
Theorem skipLineComment_stops_at_line_break `{CommentHook}
    (startSkip : Z) (p : Parser) :
  isLookahead p = true \/ onComment = None ->
  let p' := skipLineComment startSkip p in
  p' = set_pos (pos p') p
  /\ pos p + startSkip <= pos p'
  /\ (Z.of_nat (length (input p)) <= pos p'
      \/ isNewLine (charCodeAt (input p) (pos p')) = true)
  /\ (forall k, pos p + startSkip <= k < pos p' ->
        isNewLine (charCodeAt (input p) k) = false)
  /\ curLine p' = curLine p /\ lineStart p' = lineStart p.
Proof.
  intros Hmode. simpl.
  assert (Hp' : skipLineComment startSkip p
                = set_pos (lineCommentEnd (input p)
                             (Z.to_nat (Z.of_nat (length (input p))
                                        - (pos p + startSkip)))
                             (pos p + startSkip)) p).
  { unfold skipLineComment. destruct Hmode as [-> | ->]; [reflexivity|].
    destruct (isLookahead p); reflexivity. }
  rewrite Hp'. simpl.
  pose proof (lineCommentEnd_spec (input p)
                (Z.to_nat (Z.of_nat (length (input p)) - (pos p + startSkip)))
                (pos p + startSkip) ltac:(lia)) as Hspec.
  simpl in Hspec. destruct Hspec as (Hle & Hend & Hbefore).
  repeat split; assumption.
Qed.

Lemma skipLineComment_stops_at_line_break_witness :
  pos onLineComment + 2 <= pos (@skipLineComment noCommentHook 2 onLineComment).
Proof.
  exact (proj1 (proj2
    (@skipLineComment_stops_at_line_break noCommentHook 2 onLineComment
       (or_intror eq_refl)))).
Defined.

Example skipLineComment_example :
  pos (@skipLineComment noCommentHook 2 onLineComment) = 6.
Proof. reflexivity. Qed.

Lemma nextLineBreak_bounds (code : jsstring) (from end' : Z) :
  let r := nextLineBreak code from end' in
  (r = -1 /\ forall k, from <= k < end' -> isNewLine (charCodeAt code k) = false)
  \/ (from < r <= end' /\ 1 <= r /\ isNewLine (charCodeAt code (r - 1)) = true).
Proof.
  unfold nextLineBreak. simpl.
  destruct (Z.le_gt_cases from end') as [Hle|Hgt].
  - pose proof (nextLineBreak_loop_spec code end' (Z.to_nat (end' - from)) from
                  ltac:(lia)) as Hspec.
    simpl in Hspec.
    destruct Hspec as [[Hr Hall] | (k & Hk & Hnk & _ & Hres)]; [left; auto|].
    right. pose proof (isNewLine_charCodeAt_nonneg code k Hnk) as Hk0.
    destruct Hres as [(-> & Hin & _ & Hlf) | (-> & _)].
    + split; [lia|]. split; [lia|].
      replace (k + 2 - 1) with (k + 1) by lia. rewrite Hlf. reflexivity.
    + split; [lia|]. split; [lia|].
      replace (k + 1 - 1) with k by lia. exact Hnk.
  - left. replace (Z.to_nat (end' - from)) with 0%nat by lia. simpl.
    split; [reflexivity|]. intros k Hk. lia.
Qed.

(** The line-counting loop with enough fuel runs to its end: no line break
    is left between the last one found and the end of the comment. *)
Lemma countLineBreaks_spec (code : jsstring) (end' : Z) (fuel : nat) :
  forall pos' lines ls,
    end' - pos' < Z.of_nat fuel ->
    exists cur,
      (forall k, cur <= k < end' -> isNewLine (charCodeAt code k) = false)
      /\ ((countLineBreaks code end' fuel pos' lines ls = (lines, ls) /\ cur = pos')
          \/ (exists lines',
                countLineBreaks code end' fuel pos' lines ls = (lines', Some cur)
                /\ lines < lines' /\ pos' < cur <= end' /\ 1 <= cur
                /\ isNewLine (charCodeAt code (cur - 1)) = true)).
Proof.
  induction fuel as [|fuel IH]; intros pos' lines ls Hfuel.
  - exists pos'. split; [intros k Hk; lia|]. left. split; reflexivity.
  - simpl.
    destruct (nextLineBreak_bounds code pos' end') as [[Hr Hall] | (Hrange & H1 & Hnl)].
    + simpl in Hr. rewrite Hr. simpl. exists pos'. split; [exact Hall|].
      left. split; reflexivity.
    + simpl in Hrange, H1, Hnl.
      destruct (Z.ltb_spec (-1) (nextLineBreak code pos' end')) as [_|Hbad]; [|lia].
      destruct (IH (nextLineBreak code pos' end') (lines + 1)
                  (Some (nextLineBreak code pos' end')) ltac:(lia))
        as (cur & Hclean & [[Heq ->] | (lines' & Heq & Hlt & Hc & Hc1 & Hcnl)]).
      * exists (nextLineBreak code pos' end'). split; [exact Hclean|].
        right. exists (lines + 1). split; [exact Heq|].
        split; [lia|]. split; [lia|]. split; [exact H1 | exact Hnl].
      * exists cur. split; [exact Hclean|].
        right. exists lines'. split; [exact Heq|].
        split; [lia|]. split; [lia|]. split; [exact Hc1 | exact Hcnl].
Qed.

Lemma indexOf2_from_spec (a b : Z) (s : jsstring) :
  forall i, 0 <= i ->
    let r := indexOf2_from a b s i in
    (r = -1 /\ forall k : nat, ~ (s !! k = Some a /\ s !! S k = Some b))
    \/ (exists k : nat, r = i + Z.of_nat k /\ s !! k = Some a /\ s !! S k = Some b
          /\ forall j : nat, (j < k)%nat -> ~ (s !! j = Some a /\ s !! S j = Some b)).
Proof.
  induction s as [|c t IH]; intros i Hi; simpl.
  - left. split; [reflexivity|]. intros k [Hk _]. discriminate Hk.
  - destruct t as [|d t'].
    + left. split; [reflexivity|]. intros k [_ Hk]. destruct k; discriminate Hk.
    + destruct ((c =? a) && (d =? b)) eqn:Hm.
      * right. exists 0%nat. apply andb_true_iff in Hm as [Hc Hd].
        apply Z.eqb_eq in Hc, Hd. subst. simpl.
        split; [lia|]. split; [reflexivity|]. split; [reflexivity|].
        intros j Hj; lia.
      * assert (Hno : ~ (Some c = Some a /\ Some d = Some b)).
        { intros [Hc Hd]. injection Hc as ->. injection Hd as ->.
          rewrite !Z.eqb_refl in Hm. discriminate Hm. }
        destruct (IH (i + 1) ltac:(lia)) as [[Hr Hall] | (k & Hr & Hk1 & Hk2 & Hfirst)].
        -- left. split; [exact Hr|]. intros k Hk.
           destruct k as [|k]; [exact (Hno Hk) | exact (Hall k Hk)].
        -- right. exists (S k). split; [cbv zeta in Hr; rewrite Hr; lia|].
           split; [exact Hk1|]. split; [exact Hk2|].
           intros j Hj. destruct j as [|j]; [exact Hno|].
           apply Hfirst. lia.
Qed.

Lemma indexOf2_found (a b : Z) (s : jsstring) (from : Z) :
  0 <= from ->
  let r := indexOf2 a b s from in
  r = -1
  \/ (from <= r /\ charCodeAt s r = Some a /\ charCodeAt s (r + 1) = Some b).
Proof.
  intros Hfrom. unfold indexOf2. simpl.
  set (f := Z.max 0 (Z.min from (Z.of_nat (length s)))).
  destruct (indexOf2_from_spec a b (drop (Z.to_nat f) s) f ltac:(lia))
    as [[Hr _] | (k & Hr & Hk1 & Hk2 & _)]; [left; exact Hr|].
  right. simpl in Hr. unfold jsstring in Hk1, Hk2.
  rewrite lookup_drop in Hk1, Hk2.
  pose proof (lookup_lt_Some _ _ _ Hk2) as Hlen.
  assert (Hf : f = from) by lia.
  split; [lia|]. unfold charCodeAt.
  destruct (Z.ltb_spec (indexOf2_from a b (drop (Z.to_nat f) s) f) 0); [lia|].
  destruct (Z.ltb_spec (indexOf2_from a b (drop (Z.to_nat f) s) f + 1) 0); [lia|].
  rewrite Hr.
  replace (Z.to_nat (f + Z.of_nat k)) with (Z.to_nat f + k)%nat by lia.
  replace (Z.to_nat (f + Z.of_nat k + 1)) with (Z.to_nat f + S k)%nat by lia.
  split; assumption.
Qed.

(** X3. [skipBlockComment()] on a comment that is closed, in look-ahead
    mode or without an [onComment] callback: it completes normally with the
    offset just after the first [*/] found from [pos + 2] on.  When
    locations are tracked, the line counter never decreases; it is
    unchanged exactly when [lineStart] is, and otherwise [lineStart] is an
    offset inside the comment that follows a line break; in both cases no
    line break is left between the comment's start or the new [lineStart]
    (the later of the two) and the new offset.  Without locations the line
    bookkeeping is untouched. *)
Theorem skipBlockComment_closed `{BaseParser} `{CommentHook} (p : Parser) :
  0 <= pos p ->
  isLookahead p = true \/ onComment = None ->
  indexOf2 42 47 (input p) (pos p + 2) <> -1 ->
  exists p',
    skipBlockComment p = Normal tt p'
    /\ pos p' = indexOf2 42 47 (input p) (pos p + 2) + 2
    /\ pos p + 4 <= pos p'
    /\ charCodeAt (input p) (pos p' - 2) = Some 42
    /\ charCodeAt (input p) (pos p' - 1) = Some 47
    /\ (locations (options p) = false ->
        curLine p' = curLine p /\ lineStart p' = lineStart p)
    /\ (locations (options p) = true ->
        curLine p <= curLine p'
        /\ ((curLine p' = curLine p /\ lineStart p' = lineStart p
             /\ forall k, pos p <= k < pos p' ->
                  isNewLine (charCodeAt (input p) k) = false)
            \/ (curLine p < curLine p'
                /\ pos p < lineStart p' <= pos p'
                /\ isNewLine (charCodeAt (input p) (lineStart p' - 1)) = true
                /\ forall k, lineStart p' <= k < pos p' ->
                     isNewLine (charCodeAt (input p) k) = false))).
Proof.
  intros Hpos Hmode Hfound.
  destruct (indexOf2_found 42 47 (input p) (pos p + 2) ltac:(lia))
    as [Hnone | (Hle & Hstar & Hslash)]; [contradiction|].
  set (e := indexOf2 42 47 (input p) (pos p + 2)) in *.
  unfold skipBlockComment.
  cbn -[countLineBreaks Z.to_nat Z.add Z.sub indexOf2]. fold e.
  destruct (Z.eqb_spec e (-1)) as [Heq | _]; [contradiction|].
  cbn -[countLineBreaks Z.to_nat Z.add Z.sub indexOf2].
  destruct (locations (options p)) eqn:Hloc.
  - destruct (countLineBreaks_spec (input p) (e + 2)
                (S (Z.to_nat (e + 2 - pos p))) (pos p) 0 None ltac:(lia))
      as (cur & Hclean & [[Hcount ->] | (lines' & Hcount & Hlt & Hc & Hc1 & Hcnl)]).
    + rewrite Hcount. simpl.
      eexists. split.
      { destruct Hmode as [-> | ->]; [reflexivity|].
        destruct (isLookahead p); reflexivity. }
      simpl. split; [reflexivity|]. split; [lia|].
      replace (e + 2 - 2) with e by lia. replace (e + 2 - 1) with (e + 1) by lia.
      split; [exact Hstar|]. split; [exact Hslash|].
      split; [intros Hf; discriminate Hf|]. intros _.
      split; [lia|]. left. split; [lia|]. split; [reflexivity | exact Hclean].
    + rewrite Hcount. simpl.
      eexists. split.
      { destruct Hmode as [-> | ->]; [reflexivity|].
        destruct (isLookahead p); reflexivity. }
      simpl. split; [reflexivity|]. split; [lia|].
      replace (e + 2 - 2) with e by lia. replace (e + 2 - 1) with (e + 1) by lia.
      split; [exact Hstar|]. split; [exact Hslash|].
      split; [intros Hf; discriminate Hf|]. intros _.
      split; [lia|]. right. split; [lia|]. split; [lia|].
      split; [exact Hcnl | exact Hclean].
  - simpl. eexists. split.
    { destruct Hmode as [-> | ->]; [reflexivity|].
      destruct (isLookahead p); reflexivity. }
    simpl. split; [reflexivity|]. split; [lia|].
    replace (e + 2 - 2) with e by lia. replace (e + 2 - 1) with (e + 1) by lia.
    split; [exact Hstar|]. split; [exact Hslash|].
    split; [intros _; split; reflexivity|]. intros Hf; discriminate Hf.
Qed.

Lemma skipBlockComment_closed_witness :
  exists p', @skipBlockComment throwingParser noCommentHook onBlockComment
             = Normal tt p'
             /\ pos p' = 12.
Proof.
  destruct (@skipBlockComment_closed throwingParser noCommentHook onBlockComment
              ltac:(vm_compute; discriminate) (or_intror eq_refl)
              ltac:(vm_compute; discriminate))
    as (p' & Hrun & Hpos & _).
  exists p'. split; [exact Hrun | exact Hpos].
Defined.

Example skipBlockComment_example :
  exists p', @skipBlockComment throwingParser noCommentHook onBlockComment
             = Normal tt p'
             /\ pos p' = 12 /\ curLine p' = 2 /\ lineStart p' = 7.
Proof. eexists. split; [reflexivity|]. vm_compute. auto. Qed.

(** X4. [skipBlockComment()] on a comment that is never closed reports
    'Unterminated comment' at the comment's start through the base class's
    [raiseRecoverable] (the override of [raise] passes [recoverable]), with
    the offset already moved past the opening; when that throws, so does
    the method, and when it returns the method goes on with [end = -1] and
    leaves the offset at 1. *)
Theorem skipBlockComment_unterminated `{BaseParser} `{CommentHook} (p : Parser) :
  indexOf2 42 47 (input p) (pos p + 2) = -1 ->
  match super_raiseRecoverable (pos p) (Text "Unterminated comment")
          (set_pos (pos p + 2) p) with
  | Throw e s => skipBlockComment p = Throw e s
  | Fault w s => skipBlockComment p = Fault w s
  | Normal _ s =>
    isLookahead s = true \/ onComment = None ->
    exists p', skipBlockComment p = Normal tt p' /\ pos p' = 1
  end.
Proof.
  intros Hnone. unfold skipBlockComment.
  cbn -[countLineBreaks Z.to_nat Z.add Z.sub indexOf2].
  rewrite Hnone. cbn -[countLineBreaks Z.to_nat Z.add Z.sub indexOf2].
  unfold raise, raiseCommonCheck.
  destruct (decide (Text "Unterminated comment" = CommaAfterRest)) as [Hbad|_];
    [discriminate Hbad|].
  replace (pos p + 2 - 2) with (pos p) by lia.
  destruct (super_raiseRecoverable (pos p) (Text "Unterminated comment")
              (set_pos (pos p + 2) p)) as [[] s | e s | w s];
    cbn -[countLineBreaks Z.to_nat Z.add Z.sub indexOf2];
    [|reflexivity|reflexivity].
  intros Hmode.
  destruct (locations (options s)).
  - match goal with
    | |- context [countLineBreaks ?a ?b ?c ?d ?e ?f] =>
      destruct (countLineBreaks a b c d e f) as [lines ls]
    end.
    simpl. eexists. split.
    { destruct Hmode as [-> | ->]; [reflexivity|].
      destruct (isLookahead s); reflexivity. }
    reflexivity.
  - simpl. eexists. split.
    { destruct Hmode as [-> | ->]; [reflexivity|].
      destruct (isLookahead s); reflexivity. }
    reflexivity.
Qed.

Lemma skipBlockComment_unterminated_witness :
  @skipBlockComment throwingParser noCommentHook onOpenComment
  = Throw (mkSyntaxError 2 (Text "Unterminated comment")) (set_pos 4 onOpenComment).
Proof.
  exact (@skipBlockComment_unterminated throwingParser noCommentHook onOpenComment
           eq_refl).
Defined.

Example skipBlockComment_tolerant :
  exists p', @skipBlockComment tolerantParser noCommentHook onOpenComment
             = Normal tt p'
             /\ pos p' = 1.
Proof. eexists. split; reflexivity. Qed.

(** ** Look-ahead *)

Lemma context_fresh_spec (c : TokContext) (p : Parser) :
  wf p ->
  wf (context_fresh c p)
  /\ context p ∈ dom (heap (context_fresh c p))
  /\ context p ≠ context (context_fresh c p)
  /\ heap (context_fresh c p) !! context p = heap p !! context p
  /\ contextArray (context_fresh c p) = [c].
Proof.
  intros Hwf. unfold context_fresh, wf, contextArray in *. simpl.
  pose proof (is_fresh (dom (heap p))) as Hfresh.
  set (l := fresh (dom (heap p))) in *.
  assert (Hne : context p ≠ l) by (intros Heq; rewrite Heq in Hwf; exact (Hfresh Hwf)).
  split; [apply elem_of_dom; rewrite lookup_insert_eq; eauto|].
  split; [apply elem_of_dom; rewrite lookup_insert_ne by congruence;
          apply elem_of_dom; exact Hwf|].
  split; [exact Hne|].
  split; [apply lookup_insert_ne; congruence|].
  rewrite lookup_insert_eq. reflexivity.
Qed.

Section LookaheadFrame.
Context `{BaseLexer}.
Hypothesis nextToken_wf : forall p, wf p -> wf (stateOf (acorn_nextToken p)).
Hypothesis nextToken_frame : forall p l,
  wf p -> l ∈ dom (heap p) -> l ≠ context p ->
  heap (stateOf (acorn_nextToken p)) !! l = heap p !! l
  /\ context (stateOf (acorn_nextToken p)) ≠ l.
Hypothesis nextToken_mode : forall p,
  isLookahead (stateOf (acorn_nextToken p)) = isLookahead p.

Lemma nextTokens_frame (n : nat) :
  forall p l,
    wf p -> l ∈ dom (heap p) -> l ≠ context p ->
    wf (stateOf (nextTokens n p))
    /\ heap (stateOf (nextTokens n p)) !! l = heap p !! l
    /\ context (stateOf (nextTokens n p)) ≠ l
    /\ isLookahead (stateOf (nextTokens n p)) = isLookahead p.
Proof.
  induction n as [|n IH]; intros p l Hwf Hl Hne; simpl.
  - auto.
  - pose proof (nextToken_wf p Hwf) as Hwf1.
    destruct (nextToken_frame p l Hwf Hl Hne) as [Hh1 Hc1].
    pose proof (nextToken_mode p) as Hm1.
    destruct (acorn_nextToken p) as [[] p1 | e p1 | w p1]; simpl in *; auto.
    assert (Hl1 : l ∈ dom (heap p1)).
    { apply elem_of_dom. rewrite Hh1. apply elem_of_dom. exact Hl. }
    destruct (IH p1 l Hwf1 Hl1 (not_eq_sym Hc1)) as (Hwf2 & Hh2 & Hc2 & Hm2).
    split; [exact Hwf2|]. split; [congruence|]. split; [exact Hc2|]. congruence.
Qed.
End LookaheadFrame.

Lemma lexBraceL_mode (p : Parser) : isLookahead (lexBraceL p) = isLookahead p.
Proof.
  unfold lexBraceL, finishToken, updateContext; simpl.
  destruct (isLookahead p) eqn:Hm; simpl; [reflexivity|].
  repeat case_decide; simpl; try congruence; auto.
Qed.

(** X5. [lookahead(number)] scans on a context array of its own
    ([createLookaheadState] allocates [[curContext()]]), so for a parser
    with a non-empty context stack and a tokenizer that only touches the
    live context array: when the tokens are read without an exception, the
    parser is back on the token, offsets, line bookkeeping and context stack
    (the array and its content) it had, [isLookahead] is off whatever it was
    before, and the returned state points to the temporary array; when
    [nextToken] throws, nothing is restored: the parser stays in look-ahead
    mode on the temporary array, the original array itself being intact. *)
Theorem lookahead_restores `{BaseLexer}
    (nextToken_wf : forall p, wf p -> wf (stateOf (acorn_nextToken p)))
    (nextToken_frame : forall p l,
       wf p -> l ∈ dom (heap p) -> l ≠ context p ->
       heap (stateOf (acorn_nextToken p)) !! l = heap p !! l
       /\ context (stateOf (acorn_nextToken p)) ≠ l)
    (nextToken_mode : forall p,
       isLookahead (stateOf (acorn_nextToken p)) = isLookahead p)
    (number : option Z) (p : Parser) :
  wf p ->
  contextArray p ≠ [] ->
  exists c,
    lookahead number p = Some c
    /\ match c with
       | Normal curState p' =>
         observe p' = observe p
         /\ context p' = context p
         /\ isLookahead p' = false
         /\ LookaheadState.context curState ≠ context p
       | Throw _ s | Fault _ s =>
         isLookahead s = true
         /\ context s ≠ context p
         /\ heap s !! context p = heap p !! context p
       end.
Proof.
  intros Hwf Hstack.
  unfold lookahead, createLookaheadState.
  change (curContext (set_value VNull p)) with (last (contextArray p)).
  destruct (last (contextArray p)) as [c|] eqn:Hlast;
    [|apply last_None in Hlast; contradiction].
  simpl.
  assert (Hwf0 : wf (set_value VNull p)) by exact Hwf.
  destruct (context_fresh_spec c (set_value VNull p) Hwf0)
    as (Hwf1 & Hdom1 & Hne1 & Hheap1 & _).
  change (context (set_value VNull p)) with (context p) in *.
  change (heap (set_value VNull p)) with (heap p) in *.
  set (p2 := set_isLookahead true (context_fresh c (set_value VNull p))).
  assert (Hwf2 : wf p2) by exact Hwf1.
  assert (Hdom2 : context p ∈ dom (heap p2)) by exact Hdom1.
  assert (Hne2 : context p ≠ context p2) by exact Hne1.
  assert (Hheap2 : heap p2 !! context p = heap p !! context p) by exact Hheap1.
  set (tokens := match number with
                 | Some number => nextTokens (Z.to_nat number) p2
                 | None => acorn_nextToken p2
                 end).
  assert (Hframe : heap (stateOf tokens) !! context p = heap p !! context p
                   /\ context (stateOf tokens) ≠ context p
                   /\ isLookahead (stateOf tokens) = true).
  { unfold tokens. destruct number as [number|].
    - destruct (nextTokens_frame nextToken_wf nextToken_frame nextToken_mode
                  (Z.to_nat number) p2 (context p) Hwf2 Hdom2 Hne2)
        as (_ & Hh & Hc & Hm).
      split; [congruence|]. split; [exact Hc | exact Hm].
    - destruct (nextToken_frame p2 (context p) Hwf2 Hdom2 Hne2) as [Hh Hc].
      split; [congruence|]. split; [exact Hc|].
      rewrite nextToken_mode. reflexivity. }
  destruct Hframe as (Hh & Hc & Hm).
  eexists. split; [reflexivity|].
  destruct tokens as [[] s | e s | w s]; simpl in *.
  - split; [|split; [reflexivity|split; [reflexivity|exact Hc]]].
    unfold observe. rewrite scalars_setLookaheadState.
    unfold contextArray. rewrite heap_setLookaheadState. simpl.
    rewrite Hh. reflexivity.
  - auto.
  - auto.
Qed.

Lemma lookahead_restores_witness :
  exists curState p',
    @lookahead braceLexer (Some 2) inOpeningTag = Some (Normal curState p')
    /\ observe p' = observe inOpeningTag.
Proof.
  destruct (@lookahead_restores braceLexer
              (fun p => lexBraceL_wf p)
              (fun p l => lexBraceL_frame p l)
              (fun p => lexBraceL_mode p)
              (Some 2) inOpeningTag inOpeningTag_wf
              ltac:(vm_compute; discriminate))
    as (c & Hrun & Hpost).
  destruct c as [curState p' | e s | w s];
    [|vm_compute in Hrun; discriminate Hrun|vm_compute in Hrun; discriminate Hrun].
  exists curState, p'. split; [exact Hrun | exact (proj1 Hpost)].
Defined.

Example lookahead_throw_example :
  exists e s,
    @lookahead failingLexer (Some 3) inOpeningTag = Some (Throw e s)
    /\ isLookahead s = true /\ pos s = 6
    /\ contextArray s = [tc_oTag].
Proof. do 2 eexists. split; [vm_compute; reflexivity|]. vm_compute. auto. Qed.

(** X6. [tsInNoContext(cb)] runs [cb] on a new one-element array holding
    the bottom of the context stack, and its [finally] puts the old array
    back on every completion: for a callback that only touches the live
    context array, the context stack after the call (the array and its
    content) is the one before it, whether [cb] returned or threw. *)
Theorem tsInNoContext_restores {T : Type} (cb : Parser -> Completion T Parser)
    (cb_frame : forall q l,
       wf q -> l ∈ dom (heap q) -> l ≠ context q ->
       heap (stateOf (cb q)) !! l = heap q !! l)
    (p : Parser) :
  wf p ->
  contextArray p ≠ [] ->
  exists c bottom,
    tsInNoContext cb p = Some c
    /\ head (contextArray p) = Some bottom
    /\ contextArray (context_fresh bottom p) = [bottom]
    /\ c = finally (cb (context_fresh bottom p)) (set_context (context p))
    /\ context (stateOf c) = context p
    /\ contextArray (stateOf c) = contextArray p.
Proof.
  intros Hwf Hstack. unfold tsInNoContext.
  destruct (contextArray p) as [|bottom rest] eqn:Harr; [contradiction|].
  simpl.
  destruct (context_fresh_spec bottom p Hwf) as (Hwf1 & Hdom1 & Hne1 & Hheap1 & Hone).
  pose proof (cb_frame (context_fresh bottom p) (context p) Hwf1 Hdom1 Hne1) as Hh.
  eexists. exists bottom. split; [reflexivity|]. split; [reflexivity|].
  split; [exact Hone|]. split; [reflexivity|].
  destruct (cb (context_fresh bottom p)) as [a s | e s | w s]; simpl in *.
  all: split; [reflexivity|].
  all: unfold contextArray in *; simpl; rewrite Hh, Hheap1; exact Harr.
Qed.

Lemma tsInNoContext_restores_witness :
  exists c,
    tsInNoContext (fun q => Normal tt (lexBraceL q)) inOpeningTag = Some c
    /\ contextArray (stateOf c) = contextArray inOpeningTag.
Proof.
  destruct (@tsInNoContext_restores unit (fun q => Normal tt (lexBraceL q))
              (fun q l Hwf Hl Hne => proj1 (lexBraceL_frame q l Hwf Hl Hne))
              inOpeningTag inOpeningTag_wf ltac:(vm_compute; discriminate))
    as (c & bottom & Hrun & _ & _ & _ & _ & Hstack).
  exists c. split; [exact Hrun | exact Hstack].
Defined.

(** X7. [tsInType(cb)] and [tsInAmbientContext(cb)] run [cb] with their
    flag on and reset it in a [finally]: however [cb] completes and
    whatever it does to the flag, the flag after the call is the one before
    it and every other field is as [cb] left it; so the wrappers nest, the
    rest of an outer callback still running with the flag on after an
    inner call has returned. *)
Theorem flag_wrappers_restore {T : Type} (cb : Parser -> Completion T Parser)
    (p : Parser) :
  (inType (stateOf (tsInType cb p)) = inType p
   /\ set_inType false (stateOf (tsInType cb p))
      = set_inType false (stateOf (cb (set_inType true p)))
   /\ inType (stateOf (tsInType (tsInType cb) p)) = inType p
   /\ forall U (rest : T -> Parser -> Completion U Parser),
        tsInType (fun q => andThen (tsInType cb q) rest) p
        = tsInType (fun q => andThen (cb q) (fun a s => rest a (set_inType true s))) p)
  /\ (isAmbientContext (stateOf (tsInAmbientContext cb p)) = isAmbientContext p
      /\ set_isAmbientContext false (stateOf (tsInAmbientContext cb p))
         = set_isAmbientContext false (stateOf (cb (set_isAmbientContext true p)))
      /\ isAmbientContext (stateOf (tsInAmbientContext (tsInAmbientContext cb) p))
         = isAmbientContext p
      /\ forall U (rest : T -> Parser -> Completion U Parser),
           tsInAmbientContext (fun q => andThen (tsInAmbientContext cb q) rest) p
           = tsInAmbientContext
               (fun q => andThen (cb q)
                           (fun a s => rest a (set_isAmbientContext true s))) p).
Proof.
  split.
  - unfold tsInType. simpl.
    change (set_inType true (set_inType true p)) with (set_inType true p).
    split; [destruct (cb (set_inType true p)); reflexivity|].
    split; [destruct (cb (set_inType true p)); reflexivity|].
    split; [destruct (cb (set_inType true p)); reflexivity|].
    intros U rest. simpl.
    destruct (cb (set_inType true p)) as [a s | e s | w s]; reflexivity.
  - unfold tsInAmbientContext. simpl.
    change (set_isAmbientContext true (set_isAmbientContext true p))
      with (set_isAmbientContext true p).
    split; [destruct (cb (set_isAmbientContext true p)); reflexivity|].
    split; [destruct (cb (set_isAmbientContext true p)); reflexivity|].
    split; [destruct (cb (set_isAmbientContext true p)); reflexivity|].
    intros U rest. simpl.
    destruct (cb (set_isAmbientContext true p)) as [a s | e s | w s]; reflexivity.
Qed.

(** ** Tokenizer overrides *)

(** X8. [reScan_lt()] never answers [tt.bitShift]: on any other token it
    answers the token's type and leaves the parser alone; on a shift token
    it steps back two characters and finishes a one-character relational
    operator there, so that the token ends one character before the old
    offset, its text is the character two before it, and (when the shift
    was [<<]) the next character to lex is the second [<].  The context
    update of the new token is the base class's, with the shift as the
    previous type, and is skipped in look-ahead mode. *)
Theorem reScan_lt_splits_shift `{BaseTokenizer} (p : Parser) :
  (forall t p', reScan_lt p = Some (t, p') -> t <> tt_bitShift)
  /\ (type p <> tt_bitShift -> reScan_lt p = Some (type p, p))
  /\ (type p = tt_bitShift ->
      reScan_lt p
      = pair tt_relational
          <$> (if isLookahead p then Some (relationalToken (set_pos (pos p - 2) p))
               else super_updateContext tt_bitShift
                      (relationalToken (set_pos (pos p - 2) p)))
      /\ type (relationalToken (set_pos (pos p - 2) p)) = tt_relational
      /\ pos (relationalToken (set_pos (pos p - 2) p)) = pos p - 1
      /\ end_ (relationalToken (set_pos (pos p - 2) p)) = pos p - 1
      /\ start (relationalToken (set_pos (pos p - 2) p)) = start p
      /\ forall c, charCodeAt (input p) (pos p - 2) = Some c ->
           value (relationalToken (set_pos (pos p - 2) p)) = VStr [c]).
Proof.
  split; [|split].
  - intros t p' Hrun. unfold reScan_lt in Hrun.
    destruct (decide (type p = tt_bitShift)) as [Hs|Hs].
    + destruct (finishOp tt_relational 1 (set_pos (pos p - 2) p)); simpl in Hrun;
        [|discriminate Hrun].
      injection Hrun as <- _. discriminate.
    + injection Hrun as <- _. exact Hs.
  - intros Hs. unfold reScan_lt.
    destruct (decide (type p = tt_bitShift)); [contradiction|reflexivity].
  - intros Hs. unfold reScan_lt.
    destruct (decide (type p = tt_bitShift)) as [_|]; [|contradiction].
    split.
    + unfold finishOp, finishToken, relationalToken, curPosition. simpl.
      rewrite Hs.
      replace (pos p - 2 + 1) with (pos p - 1) by lia.
      destruct (isLookahead p); simpl; [reflexivity|].
      unfold updateContext. simpl. reflexivity.
    + simpl.
      split; [reflexivity|]. split; [lia|]. split; [lia|].
      split; [reflexivity|].
      intros c Hc. rewrite (slice_one _ _ _ Hc). reflexivity.
Qed.

Example reScan_lt_example :
  exists p', @reScan_lt idleTokenizer onShift = Some (tt_relational, p')
             /\ pos p' = 2 /\ value p' = VStr (str "<")
             /\ charCodeAt (input p') (pos p') = Some 60.
Proof. eexists. split; [reflexivity|]. vm_compute. auto. Qed.

(** X9. Outside a type context, and when the current tokenizer context is
    not JSX text, [readToken] decides the angle brackets as follows: [<]
    starts a JSX tag exactly when an expression is allowed and the next
    character is not [!], and is the base tokenizer's otherwise; [>] ends
    a JSX tag exactly inside an opening or closing tag, and is the base
    tokenizer's otherwise.  The tag tokens are one character long. *)
Theorem readToken_angle_brackets `{BaseTokenizer} (p : Parser) :
  inType p = false ->
  curContext p <> Some tc_expr ->
  readToken 60 p
  = (if exprAllowed p
        && negb (bool_decide (charCodeAt (input p) (pos p + 1) = Some 33))
     then finishToken tokTypes_jsxTagStart VUndefined (set_pos (pos p + 1) p)
     else super_getTokenFromCode 60 p)
  /\ readToken 62 p
     = (if bool_decide (curContext p = Some tc_oTag \/ curContext p = Some tc_cTag)
        then finishToken tokTypes_jsxTagEnd VUndefined (set_pos (pos p + 1) p)
        else super_getTokenFromCode 62 p).
Proof.
  intros Hin Hctx.
  assert (Hbase : forall code, code = 60 \/ code = 62 ->
            super_readToken code p = super_getTokenFromCode code p).
  { intros code Hcode. unfold super_readToken, getTokenFromCode.
    rewrite (isIdentifierStart_lt_gt _ _ Hcode), Hin.
    destruct Hcode as [-> | ->]; reflexivity. }
  unfold readToken. rewrite Hin. simpl.
  destruct (decide (curContext p = Some tc_expr)) as [Heq|_]; [contradiction|].
  rewrite (Hbase 60 (or_introl eq_refl)), (Hbase 62 (or_intror eq_refl)).
  split.
  - destruct (decide (curContext p = Some tc_oTag \/ curContext p = Some tc_cTag));
      reflexivity.
  - destruct (decide (curContext p = Some tc_oTag \/ curContext p = Some tc_cTag))
      as [Htag|Htag].
    + rewrite bool_decide_eq_true_2 by exact Htag. reflexivity.
    + rewrite bool_decide_eq_false_2 by exact Htag. reflexivity.
Qed.

Lemma readToken_angle_brackets_witness :
  @readToken idleTokenizer 60 inExpression
  = @finishToken idleTokenizer tokTypes_jsxTagStart VUndefined
      (set_pos (pos inExpression + 1) inExpression)
  /\ @readToken idleTokenizer 62 inOpeningTag
     = @finishToken idleTokenizer tokTypes_jsxTagEnd VUndefined
         (set_pos (pos inOpeningTag + 1) inOpeningTag).
Proof.
  split.
  - exact (proj1 (@readToken_angle_brackets idleTokenizer inExpression eq_refl
                    ltac:(vm_compute; discriminate))).
  - exact (proj2 (@readToken_angle_brackets idleTokenizer inOpeningTag eq_refl
                    ltac:(vm_compute; discriminate))).
Defined.

(** X10. [updateContext(prevType)] on the slash that follows a
    [jsxTagStart] (a closing tag): the two topmost contexts are dropped in
    place and [tc_cTag] is pushed, an expression is no longer allowed, and
    nothing else changes; the base class is not consulted.  With fewer than
    two contexts on the stack the truncation throws (a [RangeError]).
    Afterwards, outside a type context, [>] is lexed as the end of a
    tag. *)
Theorem updateContext_closing_tag `{BaseTokenizer} (p : Parser) :
  type p = tt_slash ->
  (forall rest a b,
     contextArray p = rest ++ [a; b] ->
     exists p',
       updateContext tokTypes_jsxTagStart p = Some p'
       /\ contextArray p' = rest ++ [tc_cTag]
       /\ context p' = context p
       /\ exprAllowed p' = false
       /\ set_exprAllowed false (set_heap (heap p') p) = p'
       /\ (forall l, l <> context p -> heap p' !! l = heap p !! l)
       /\ (inType p = false ->
           readToken 62 p'
           = finishToken tokTypes_jsxTagEnd VUndefined (set_pos (pos p' + 1) p')))
  /\ ((length (contextArray p) < 2)%nat ->
      updateContext tokTypes_jsxTagStart p = None).
Proof.
  intros Hslash. split.
  - intros rest a b Harr.
    unfold updateContext. rewrite Hslash.
    destruct (decide (tt_slash = tt_braceL)) as [Hbad|_]; [discriminate Hbad|].
    destruct (decide (tt_slash = tt_slash /\ tokTypes_jsxTagStart = tokTypes_jsxTagStart))
      as [_|Hbad]; [|exfalso; apply Hbad; split; reflexivity].
    unfold context_shrink. rewrite Harr.
    assert (Hlen : length (rest ++ [a; b]) = (length rest + 2)%nat)
      by (rewrite length_app; reflexivity).
    rewrite Hlen.
    destruct (Nat.ltb_spec (length rest + 2) 2) as [Hlt|_]; [lia|].
    replace (length rest + 2 - 2)%nat with (length rest) by lia.
    rewrite take_app_length. simpl.
    eexists. split; [reflexivity|].
    assert (Hstack :
      contextArray
        (set_exprAllowed false
           (context_push tc_cTag (set_heap (<[context p := rest]> (heap p)) p)))
      = rest ++ [tc_cTag]).
    { unfold context_push, contextArray. simpl.
      rewrite !lookup_insert_eq. reflexivity. }
    split; [exact Hstack|]. split; [reflexivity|]. split; [reflexivity|].
    split; [reflexivity|].
    split.
    + intros l Hl. unfold context_push. simpl.
      rewrite !lookup_insert_ne by congruence. reflexivity.
    + intros Hin.
      set (p' := set_exprAllowed false
                   (context_push tc_cTag
                      (set_heap (<[context p := rest]> (heap p)) p))) in *.
      assert (Hcur : curContext p' = Some tc_cTag).
      { unfold curContext. rewrite Hstack. apply last_snoc. }
      unfold readToken.
      change (inType p') with (inType p). rewrite Hin. simpl. rewrite Hcur.
      destruct (decide (Some tc_cTag = Some tc_expr)) as [Hbad|_]; [discriminate Hbad|].
      destruct (decide (Some tc_cTag = Some tc_oTag \/ Some tc_cTag = Some tc_cTag))
        as [_|Hbad]; [|exfalso; apply Hbad; right; reflexivity].
      reflexivity.
  - intros Hshort. unfold updateContext. rewrite Hslash.
    destruct (decide (tt_slash = tt_braceL)) as [Hbad|_]; [discriminate Hbad|].
    destruct (decide (tt_slash = tt_slash /\ tokTypes_jsxTagStart = tokTypes_jsxTagStart))
      as [_|Hbad]; [|exfalso; apply Hbad; split; reflexivity].
    unfold context_shrink.
    destruct (Nat.ltb_spec (length (contextArray p)) 2) as [_|Hge]; [reflexivity|lia].
Qed.

Lemma updateContext_closing_tag_witness :
  exists p',
    @updateContext idleTokenizer tokTypes_jsxTagStart onClosingSlash = Some p'
    /\ contextArray p' = [b_stat; tc_cTag].
Proof.
  destruct (proj1 (@updateContext_closing_tag idleTokenizer onClosingSlash eq_refl)
              [b_stat] tc_expr tc_oTag eq_refl)
    as (p' & Hrun & Hstack & _).
  exists p'. split; [exact Hrun | exact Hstack].
Defined.

(** ** Imports and exports *)



Lemma contains_spec (name : string) (l : list string) :
  contains name l = true <-> name ∈ l.
Proof. unfold contains. apply bool_decide_eq_true. Qed.

Lemma hasImport_snoc (name : string) (allowShadow : bool) (st : ScopeState)
    (outer : list (list string)) (top : list string) :
  importsStack st = outer ++ [top] ->
  hasImport name allowShadow st
  = Some (contains name top || (negb allowShadow && existsb (contains name) outer)).
Proof.
  intros Hst. unfold hasImport. rewrite Hst, reverse_snoc.
  assert (Hex : existsb (contains name) (reverse outer) = existsb (contains name) outer).
  { apply eq_true_iff_eq. rewrite !existsb_exists.
    split; intros (l & Hl & Hc); exists l; split; try exact Hc.
    - apply list_elem_of_In. apply list_elem_of_In in Hl.
      apply elem_of_reverse. exact Hl.
    - apply list_elem_of_In. apply list_elem_of_In in Hl.
      apply elem_of_reverse in Hl. exact Hl. }
  rewrite Hex.
  destruct (contains name top); [reflexivity|].
  destruct (negb allowShadow && existsb (contains name) outer); reflexivity.
Qed.

(** X11. Imports.  [hasImport(name, allowShadow)] on a non-empty imports
    stack answers whether [name] is in the innermost list or, unless
    shadowing is allowed, in any outer one; on an empty stack it throws.
    [declareName] with the import flag looks at the innermost list only: a
    name that is not there is appended to it, nothing else changes and no
    scope is consulted, even when an outer list has the name; afterwards
    [hasImport] finds it either way.  A name already in the innermost list
    is reported as already declared at [pos], and when that throws so does
    [declareName]. *)
Theorem declareName_import `{BaseScopes} (name : string) (bindingType pos' : Z)
    (st : ScopeState) (outer : list (list string)) (top : list string) :
  hasFlag bindingType BIND_FLAGS_TS_IMPORT = true ->
  importsStack st = outer ++ [top] ->
  (hasImport name true st = Some true <-> name ∈ top)
  /\ (hasImport name false st = Some true
      <-> name ∈ top \/ exists l, l ∈ outer /\ name ∈ l)
  /\ (forall b, hasImport name b st <> None)
  /\ (name ∉ top ->
      exists st',
        declareName name bindingType pos' st = Normal tt st'
        /\ importsStack st' = outer ++ [top ++ [name]]
        /\ scopeStack st' = scopeStack st
        /\ inModule st' = inModule st
        /\ undefinedExports st' = undefinedExports st
        /\ hasImport name true st' = Some true
        /\ hasImport name false st' = Some true)
  /\ (name ∈ top ->
      forall e s,
        scope_raise pos' (alreadyDeclared name) st = Throw e s ->
        declareName name bindingType pos' st = Throw e s).
Proof.
  intros Hflag Hst.
  pose proof (hasImport_snoc name true st outer top Hst) as Htrue.
  pose proof (hasImport_snoc name false st outer top Hst) as Hfalse.
  simpl in Htrue, Hfalse. rewrite orb_false_r in Htrue.
  split; [|split; [|split; [|split]]].
  - rewrite Htrue. rewrite <- contains_spec.
    split; [intros Heq; injection Heq; auto | intros ->; reflexivity].
  - rewrite Hfalse. split.
    + intros Heq. injection Heq as Heq. apply orb_true_iff in Heq as [Hc|Hc].
      * left. apply contains_spec. exact Hc.
      * right. apply existsb_exists in Hc as (l & Hl & Hc).
        exists l. split; [apply list_elem_of_In; exact Hl|].
        apply contains_spec. exact Hc.
    + intros [Hc | (l & Hl & Hc)].
      * apply contains_spec in Hc. rewrite Hc. reflexivity.
      * assert (Hex : existsb (contains name) outer = true).
        { apply existsb_exists. exists l.
          split; [apply list_elem_of_In; exact Hl | apply contains_spec; exact Hc]. }
        rewrite Hex. rewrite orb_true_r. reflexivity.
  - intros b. rewrite (hasImport_snoc name b st outer top Hst). discriminate.
  - intros Hnot.
    assert (Hc : contains name top = false).
    { destruct (contains name top) eqn:Hc; [|reflexivity].
      apply contains_spec in Hc. contradiction. }
    unfold declareName. rewrite Hflag, Htrue, Hc. simpl.
    eexists. split; [reflexivity|]. simpl.
    rewrite Hst, reverse_snoc, reverse_cons, reverse_involutive.
    split; [reflexivity|]. split; [reflexivity|]. split; [reflexivity|].
    split; [reflexivity|].
    assert (Hin : contains name (top ++ [name]) = true).
    { apply contains_spec. apply elem_of_app. right. apply list_elem_of_here. }
    split.
    + erewrite hasImport_snoc by reflexivity. rewrite Hin. reflexivity.
    + erewrite hasImport_snoc by reflexivity. rewrite Hin. reflexivity.
  - intros Hin e s Hraise.
    apply contains_spec in Hin.
    unfold declareName. rewrite Hflag, Htrue, Hin, Hraise. reflexivity.
Qed.

Lemma declareName_import_witness :
  exists st',
    @declareName varStyleScopes "a" BIND_FLAGS_TS_IMPORT 7 inNamespace = Normal tt st'
    /\ importsStack st' = [["a"]; ["a"]].
Proof.
  destruct (proj1 (proj2 (proj2 (proj2
              (@declareName_import varStyleScopes "a" BIND_FLAGS_TS_IMPORT 7
                 inNamespace [["a"]] [] eq_refl eq_refl))))
              ltac:(apply not_elem_of_nil))
    as (st' & Hrun & Hstack & _).
  exists st'. split; [exact Hrun | exact Hstack].
Defined.








(** ** Enum member references *)

Lemma memberChain_snoc (root : Expression) (props : list (Z * Expression))
    (start' : Z) (property : Expression) :
  memberChain root (props ++ [(start', property)])
  = MemberExpression start' false (memberChain root props) property.
Proof. unfold memberChain. rewrite fold_left_app. reflexivity. Qed.

Lemma isUncomputedMemberExpressionChain_chain (e : Expression) :
  isUncomputedMemberExpressionChain e = Some true
  <-> exists start' props, e = memberChain (Expr "Identifier" start') props.
Proof.
  split.
  - induction e as [s computed object IHo property _ | s l | t s].
    + simpl. destruct computed; [discriminate|].
      intros Hchain. destruct (IHo Hchain) as (s0 & props & ->).
      exists s0, (props ++ [(s, property)]). rewrite memberChain_snoc. reflexivity.
    + simpl. discriminate.
    + simpl. case_bool_decide as Hid.
      * intros _. subst t. exists s, []. reflexivity.
      * case_bool_decide; discriminate.
  - intros (s0 & props & ->).
    induction props as [|[s property] props IH] using rev_ind.
    + reflexivity.
    + rewrite memberChain_snoc. simpl. exact IH.
Qed.

(** X14. What the constant-initializer test accepts as an enum reference.
    [isUncomputedMemberExpressionChain] holds of exactly the expressions
    [id.p1...pn] (an identifier followed by any number of non-computed
    member accesses); [isPossiblyLiteralEnum] holds of exactly the member
    expressions whose object is such a chain and whose property is either
    not computed or a template literal without substitutions; a bare
    identifier is not one.  An unannotated [const] declarator in an ambient
    context whose initializer is such a reference raises nothing. *)
Theorem literal_enum_reference :
  (forall e,
     isUncomputedMemberExpressionChain e = Some true
     <-> exists start' props, e = memberChain (Expr "Identifier" start') props)
  /\ (forall e,
        isPossiblyLiteralEnum e = Some true
        <-> exists start' computed root props property,
              e = MemberExpression start' computed
                    (memberChain (Expr "Identifier" root) props) property
              /\ (computed = true -> exists s, property = TemplateLiteral s []))
  /\ (forall start', isPossiblyLiteralEnum (Expr "Identifier" start') = Some false)
  /\ (forall (S : Type) (raise : Z -> Message -> S -> Completion unit S)
        (name : string) (e : Expression) (rest : list VariableDeclarator) (s : S),
        isPossiblyLiteralEnum e = Some true ->
        parseVarStatement_check raise true "const"
          (mkVariableDeclarator (mkBindingIdentifier name None) (Some e) :: rest) s
        = parseVarStatement_check raise true "const" rest s).
Proof.
  split; [exact isUncomputedMemberExpressionChain_chain|].
  split; [|split].
  - intros e. split.
    + destruct e as [s computed object property | s l | t s]; simpl.
      * destruct computed.
        -- destruct property as [ps pc po pp | ps pl | pt ps]; simpl;
             try discriminate.
           ++ destruct pl as [|x pl]; simpl; [|discriminate].
              intros Hchain.
              apply isUncomputedMemberExpressionChain_chain in Hchain
                as (root & props & ->).
              exists s, true, root, props, (TemplateLiteral ps []).
              split; [reflexivity|]. intros _. exists ps. reflexivity.
           ++ unfold isPossiblyLiteralEnum, notPlainTemplate. simpl.
              case_bool_decide; simpl; discriminate.
        -- intros Hchain.
           apply isUncomputedMemberExpressionChain_chain in Hchain
             as (root & props & ->).
           exists s, false, root, props, property.
           split; [reflexivity|]. discriminate.
      * discriminate.
      * unfold isPossiblyLiteralEnum. simpl. case_bool_decide; discriminate.
    + intros (s & computed & root & props & property & -> & Hprop).
      assert (Hchain : isUncomputedMemberExpressionChain
                         (memberChain (Expr "Identifier" root) props) = Some true).
      { apply isUncomputedMemberExpressionChain_chain. eauto. }
      simpl. destruct computed; [|exact Hchain].
      destruct (Hprop eq_refl) as (ps & ->). simpl. exact Hchain.
  - reflexivity.
  - intros S raise name e rest s Henum.
    unfold parseVarStatement_check. simpl.
    unfold ambientDeclaratorCheck. simpl.
    assert (Htype : expression_type e = "MemberExpression").
    { destruct e as [? ? ? ? | ? ? | t ?]; [reflexivity|discriminate Henum|].
      unfold isPossiblyLiteralEnum in Henum. simpl in Henum.
      case_bool_decide; discriminate. }
    unfold notConstantInitializer, notPlainTemplate. rewrite Htype. simpl.
    rewrite Henum. reflexivity.
Qed.

(** ** Accessor parameters *)

(** X15. The parameter check of [parseGetterSetter].  A getter is accepted
    with no parameter or with a single [this] parameter, a setter with one
    parameter that is not [this] or with [this] and one more; every other
    count is reported at the start of the method value.  The rest-parameter
    check of a setter looks at the first parameter only: a lone rest
    parameter is reported at its own start, while [this] followed by a rest
    parameter passes.  At most one diagnostic is reported. *)
Theorem parseGetterSetter_params {S : Type}
    (raiseRecoverable : Z -> Message -> S -> Completion unit S)
    (start' : Z) (params : list Param) (s : S) :
  (parseGetterSetter_check raiseRecoverable "get" start' params s
   = match params with
     | [] => Normal tt s
     | [this] =>
       if isThisParam this then Normal tt s
       else raiseRecoverable start' (Text "getter should have no params") s
     | _ => raiseRecoverable start' (Text "getter should have no params") s
     end)
  /\ (parseGetterSetter_check raiseRecoverable "set" start' params s
      = match params with
        | [param] =>
          if isThisParam param
          then raiseRecoverable start' (Text "setter should have exactly one param") s
          else if bool_decide (param_type param = "RestElement")
               then raiseRecoverable (param_start param)
                      (Text "Setter cannot use rest params") s
               else Normal tt s
        | [this; _] =>
          if isThisParam this then Normal tt s
          else raiseRecoverable start' (Text "setter should have exactly one param") s
        | _ => raiseRecoverable start' (Text "setter should have exactly one param") s
        end).
Proof.
  split.
  - unfold parseGetterSetter_check. simpl.
    destruct params as [|p1 [|p2 rest]]; simpl.
    + reflexivity.
    + destruct (isThisParam p1); reflexivity.
    + destruct (isThisParam p1); reflexivity.
  - unfold parseGetterSetter_check. simpl.
    destruct params as [|p1 [|p2 [|p3 rest]]]; simpl.
    + reflexivity.
    + destruct (isThisParam p1) eqn:Hthis; simpl; [reflexivity|].
      reflexivity.
    + destruct (isThisParam p1) eqn:Hthis; simpl; [|reflexivity].
      assert (Hrest : bool_decide (param_type p1 = "RestElement") = false).
      { apply bool_decide_eq_false_2. intros Hr.
        unfold isThisParam in Hthis. apply andb_true_iff in Hthis as [Hid _].
        apply bool_decide_eq_true in Hid. rewrite Hid in Hr. discriminate Hr. }
      rewrite Hrest. reflexivity.
    + destruct (isThisParam p1); simpl; reflexivity.
Qed.

Example parseGetterSetter_this_and_rest :
  parseGetterSetter_check recordingRaise "set" 5 this_and_rest [] = Normal tt [].
Proof. reflexivity. Qed.
